(** * PlayerController: keyboard input to pawn commands

    A shallow embedding of [PlayerController] (and of the abstract
    [Controller] it extends) together with the properties of its
    per-frame resolver, its key handlers, its manual setters and its
    listener life cycle.

    Conventions of the embedding.
    - A TypeScript [number] is read as a real number: arithmetic is the
      exact arithmetic of [R]; rounding of IEEE doubles is not modelled.
    - The controlled pawn, [Vector3D] and the [window] event target are
      collaborators that live outside the two source files.  The pawn is
      an interface (a type class), [Vector3D] and [window] are modelled
      from their documented behaviour and marked as such.
    - Methods that talk to the pawn are written in a small monad: the
      state is the controller object with its pawn, and every run also
      yields the calls it made on collaborators, oldest first. *)

From Stdlib Require Import Reals Lra.
From stdpp Require Import gmap strings list.

Local Open Scope R_scope.

(** ** Numbers *)

Definition number : Type := R.

(** [a !== b] on numbers. *)
Definition strict_neq (a b : number) : bool :=
  if Req_dec_T a b then false else true.

(** ** Vector3D (imported from ../Core/Vector) *)

Module Vector3D.

Record t : Type := new { x : number; y : number; z : number }.

(** Euclidean length of a vector. *)
Definition length (v : t) : number :=
  sqrt (x v * x v + y v * y v + z v * z v).

(** Modelled from the spec: [Vector3D.normalize] is declared in
    ../Core/Vector, which is not among the sources.  The spec says the
    resolver "normalize[s] it to unit length": every component is
    divided by the Euclidean length, in place. *)
Definition normalize (v : t) : t :=
  new (x v / length v) (y v / length v) (z v / length v).

End Vector3D.

(** ** PlayerInputState *)

Module PlayerInputState.

Record t : Type := Build {
  forward : bool;
  backward : bool;
  left : bool;
  right : bool;
  jump : bool;
  shoot : bool
}.

Definition set_forward (b : bool) (i : t) : t :=
  Build b (backward i) (left i) (right i) (jump i) (shoot i).
Definition set_backward (b : bool) (i : t) : t :=
  Build (forward i) b (left i) (right i) (jump i) (shoot i).
Definition set_left (b : bool) (i : t) : t :=
  Build (forward i) (backward i) b (right i) (jump i) (shoot i).
Definition set_right (b : bool) (i : t) : t :=
  Build (forward i) (backward i) (left i) b (jump i) (shoot i).
Definition set_jump (b : bool) (i : t) : t :=
  Build (forward i) (backward i) (left i) (right i) b (shoot i).
Definition set_shoot (b : bool) (i : t) : t :=
  Build (forward i) (backward i) (left i) (right i) (jump i) b.

(** The initialiser of the [inputState] field. *)
Definition initial : t := Build false false false false false false.

End PlayerInputState.

(** ** Function objects and the window's listener list *)

(** Heap address of a controller object. *)
Definition loc : Type := nat.

Inductive Method : Type := OnKeyDown | OnKeyUp.

(** The result of [this.m.bind(this)]: a fresh function object, told
    apart from every other one by its identity [fn_id]. *)
Record BoundFunction : Type := Bind {
  fn_id : nat;
  fn_this : loc;
  fn_method : Method
}.

Inductive EventType : Type := keydown | keyup.

Record KeyboardEvent : Type := { code : string }.

Record Listener : Type := { l_type : EventType; l_callback : BoundFunction }.

Global Instance Method_eq_dec : EqDecision Method.
Proof. solve_decision. Defined.
Global Instance BoundFunction_eq_dec : EqDecision BoundFunction.
Proof. solve_decision. Defined.
Global Instance EventType_eq_dec : EqDecision EventType.
Proof. solve_decision. Defined.
Global Instance Listener_eq_dec : EqDecision Listener.
Proof. solve_decision. Defined.

(** ** Calls made on collaborators *)

Inductive Call : Type :=
| VecNormalize (v : Vector3D.t)                       (* moveDirection.normalize() *)
| PawnIsOnGround                                      (* controlledPawn.isOnGround() *)
| PawnMove (direction : Vector3D.t) (speed dt : number) (* controlledPawn.move(..) *)
| PawnCanJump                                         (* controlledPawn.canJump() *)
| PawnJump                                            (* controlledPawn.jump() *)
| PawnCanShoot                                        (* controlledPawn.canShoot() *)
| PawnShoot.                                          (* controlledPawn.shoot() *)

Definition is_move (c : Call) : bool :=
  match c with PawnMove _ _ _ => true | _ => false end.
Definition is_jump_attempt (c : Call) : bool :=
  match c with PawnCanJump => true | _ => false end.
Definition is_jump (c : Call) : bool :=
  match c with PawnJump => true | _ => false end.
Definition is_shoot_attempt (c : Call) : bool :=
  match c with PawnCanShoot => true | _ => false end.
Definition is_shoot (c : Call) : bool :=
  match c with PawnShoot => true | _ => false end.
Definition is_normalize (c : Call) : bool :=
  match c with VecNormalize _ => true | _ => false end.

(** Number of calls of one kind in a trace. *)
Definition count (p : Call → bool) (tr : list Call) : nat :=
  List.length (List.filter p tr).

(** A property of every move command in a trace, as a function of the
    direction, speed and elapsed time it carries. *)
Definition every_move (Q : Vector3D.t → number → number → Prop) (tr : list Call) : Prop :=
  Forall (λ c, match c with PawnMove d speed dt => Q d speed dt | _ => True end) tr.

(** A property of every vector on which [normalize] is called. *)
Definition every_normalize (Q : Vector3D.t → Prop) (tr : list Call) : Prop :=
  Forall (λ c, match c with VecNormalize v => Q v | _ => True end) tr.

(** ** The pawn interface consumed by the controller *)

Module Player.

Class ops (P H : Type) : Type := {
  isOnGround : P → bool;
  canJump : P → bool;
  canShoot : P → bool;
  move : Vector3D.t → number → number → P → P;
  jump : P → P;
  shoot : P → option H * P
}.

End Player.

(** ** The window as an event target *)

Module Window.

(** The event listener list of [window].  [addEventListener] appends a
    listener unless one with the same type and the same callback
    object is already registered; [removeEventListener] takes the
    registered listener with that type and callback out of the list. *)
Definition t : Type := list Listener.

Definition addEventListener (type : EventType) (callback : BoundFunction) (w : t) : t :=
  let l := Build_Listener type callback in
  if decide (l ∈ w) then w else w ++ [l].

Fixpoint removeEventListener (type : EventType) (callback : BoundFunction) (w : t) : t :=
  match w with
  | [] => []
  | l :: w' =>
      if decide (l = Build_Listener type callback) then w'
      else l :: removeEventListener type callback w'
  end.

End Window.

(** ** PlayerController *)

Module PlayerController.

(** The fields of a controller object.  The field [controlledPawn]
    inherited from [Controller<Player>] is read-only: the pawn travels
    next to the controller object in the state of the monad below, and
    no method replaces it by another pawn. *)
Record t : Type := Build {
  moveSpeed : number;
  airControlModifier : number;
  inputState : PlayerInputState.t;
  onKeyDownHandler : BoundFunction;
  onKeyUpHandler : BoundFunction
}.

Definition set_inputState (f : PlayerInputState.t → PlayerInputState.t) (c : t) : t :=
  Build (moveSpeed c) (airControlModifier c) (f (inputState c))
        (onKeyDownHandler c) (onKeyUpHandler c).

(** *** Manual setters (no pawn involved) *)

Definition moveForward (c : t) : t := set_inputState (PlayerInputState.set_forward true) c.
Definition moveBackward (c : t) : t := set_inputState (PlayerInputState.set_backward true) c.
Definition moveLeft (c : t) : t := set_inputState (PlayerInputState.set_left true) c.
Definition moveRight (c : t) : t := set_inputState (PlayerInputState.set_right true) c.

(** *** Key handlers *)

(** One [case] label of the [switch (event.code)]. *)
Definition is_case (k label : string) : bool := bool_decide (k = label).

Definition onKeyDown (event : KeyboardEvent) (c : t) : t :=
  let k := code event in
  if is_case k "KeyW" || is_case k "ArrowUp" then
    set_inputState (PlayerInputState.set_forward true) c
  else if is_case k "KeyS" || is_case k "ArrowDown" then
    set_inputState (PlayerInputState.set_backward true) c
  else if is_case k "KeyA" || is_case k "ArrowLeft" then
    set_inputState (PlayerInputState.set_left true) c
  else if is_case k "KeyD" || is_case k "ArrowRight" then
    set_inputState (PlayerInputState.set_right true) c
  else if is_case k "Space" then
    set_inputState (PlayerInputState.set_jump true) c
  else if is_case k "Mouse0" || is_case k "Enter" then
    set_inputState (PlayerInputState.set_shoot true) c
  else c.

Definition onKeyUp (event : KeyboardEvent) (c : t) : t :=
  let k := code event in
  if is_case k "KeyW" || is_case k "ArrowUp" then
    set_inputState (PlayerInputState.set_forward false) c
  else if is_case k "KeyS" || is_case k "ArrowDown" then
    set_inputState (PlayerInputState.set_backward false) c
  else if is_case k "KeyA" || is_case k "ArrowLeft" then
    set_inputState (PlayerInputState.set_left false) c
  else if is_case k "KeyD" || is_case k "ArrowRight" then
    set_inputState (PlayerInputState.set_right false) c
  else if is_case k "Space" then
    set_inputState (PlayerInputState.set_jump false) c
  else if is_case k "Mouse0" || is_case k "Enter" then
    set_inputState (PlayerInputState.set_shoot false) c
  else c.

(** *** Listening *)

Definition startListening (c : t) (w : Window.t) : Window.t :=
  let w := Window.addEventListener keydown (onKeyDownHandler c) w in
  Window.addEventListener keyup (onKeyUpHandler c) w.

Definition stopListening (c : t) (w : Window.t) : Window.t :=
  let w := Window.removeEventListener keydown (onKeyDownHandler c) w in
  Window.removeEventListener keyup (onKeyUpHandler c) w.

Definition destroy (c : t) (w : Window.t) : Window.t := stopListening c w.

(** *** The direction accumulator of [handleMovement] *)

(** [v.z += d], [v.z -= d], [v.x += d] and [v.x -= d]. *)
Definition add_z (d : number) (v : Vector3D.t) : Vector3D.t :=
  Vector3D.new (Vector3D.x v) (Vector3D.y v) (Vector3D.z v + d).
Definition sub_z (d : number) (v : Vector3D.t) : Vector3D.t :=
  Vector3D.new (Vector3D.x v) (Vector3D.y v) (Vector3D.z v - d).
Definition add_x (d : number) (v : Vector3D.t) : Vector3D.t :=
  Vector3D.new (Vector3D.x v + d) (Vector3D.y v) (Vector3D.z v).
Definition sub_x (d : number) (v : Vector3D.t) : Vector3D.t :=
  Vector3D.new (Vector3D.x v - d) (Vector3D.y v) (Vector3D.z v).

(** [moveDirection] as it stands after the four [if] statements, before
    the test for movement input. *)
Definition accumulate (i : PlayerInputState.t) : Vector3D.t :=
  let moveDirection := Vector3D.new 0 0 0 in
  let moveDirection :=
    if PlayerInputState.forward i then add_z 1 moveDirection else moveDirection in
  let moveDirection :=
    if PlayerInputState.backward i then sub_z 1 moveDirection else moveDirection in
  let moveDirection :=
    if PlayerInputState.right i then add_x 1 moveDirection else moveDirection in
  let moveDirection :=
    if PlayerInputState.left i then sub_x 1 moveDirection else moveDirection in
  moveDirection.

(** [moveDirection.x !== 0 || moveDirection.z !== 0] *)
Definition has_input (v : Vector3D.t) : bool :=
  strict_neq (Vector3D.x v) 0 || strict_neq (Vector3D.z v) 0.

(** *** Methods that command the pawn *)

Section Methods.

Context {P H : Type} `{!Player.ops P H}.

(** The controller object and the pawn it holds. *)
Record State : Type := { self : t; pawn : P }.

(** Outcome of running a method: its return value, the state it
    leaves, and the calls it made, oldest first. *)
Record Outcome (A : Type) : Type := {
  value : A;
  final : State;
  calls : list Call
}.
Global Arguments value {A}.
Global Arguments final {A}.
Global Arguments calls {A}.

Definition M (A : Type) : Type := State → Outcome A.

Definition ret {A} (a : A) : M A :=
  λ s, {| value := a; final := s; calls := [] |}.

Definition bind {A B} (m : M A) (k : A → M B) : M B :=
  λ s, let r := m s in
       let r' := k (value r) (final r) in
       {| value := value r'; final := final r'; calls := calls r ++ calls r' |}.

Local Notation "'let*' x ':=' m 'in' k" := (bind m (λ x, k))
  (at level 10, x pattern, m at level 100, k at level 200).
Local Notation "m ';;' k" := (bind m (λ _, k))
  (at level 100, k at level 200, right associativity).

(** Read a field of [this]. *)
Definition this {A} (field : t → A) : M A :=
  λ s, {| value := field (self s); final := s; calls := [] |}.

(** A boolean query on the pawn. *)
Definition ask (c : Call) (q : P → bool) : M bool :=
  λ s, {| value := q (pawn s); final := s; calls := [c] |}.

(** A command that changes the pawn and returns a result. *)
Definition tell {A} (c : Call) (f : P → A * P) : M A :=
  λ s, let r := f (pawn s) in
       {| value := r.1; final := {| self := self s; pawn := r.2 |}; calls := [c] |}.

Definition vec_normalize (v : Vector3D.t) : M Vector3D.t :=
  λ s, {| value := Vector3D.normalize v; final := s; calls := [VecNormalize v] |}.

Definition pawn_isOnGround : M bool := ask PawnIsOnGround Player.isOnGround.
Definition pawn_canJump : M bool := ask PawnCanJump Player.canJump.
Definition pawn_canShoot : M bool := ask PawnCanShoot Player.canShoot.
Definition pawn_jump : M unit := tell PawnJump (λ p, (tt, Player.jump p)).
Definition pawn_shoot : M (option H) := tell PawnShoot Player.shoot.
Definition pawn_move (d : Vector3D.t) (speed dt : number) : M unit :=
  tell (PawnMove d speed dt) (λ p, (tt, Player.move d speed dt p)).

Definition jump : M bool :=
  let* eligible := pawn_canJump in
  if eligible then
    pawn_jump ;; ret true
  else ret false.

Definition shoot : M (option H) :=
  let* eligible := pawn_canShoot in
  if eligible then pawn_shoot
  else ret None.

Definition handleMovement (dt : number) : M unit :=
  let* i := this inputState in
  let moveDirection := accumulate i in
  if has_input moveDirection then
    let* moveDirection := vec_normalize moveDirection in
    let* grounded := pawn_isOnGround in
    let* base := this moveSpeed in
    let* currentSpeed :=
      (if grounded then ret base
       else let* modifier := this airControlModifier in ret (base * modifier)) in
    pawn_move moveDirection currentSpeed dt
  else ret tt.

Definition handleActions : M unit :=
  let* i := this inputState in
  (if PlayerInputState.jump i then jump ;; ret tt else ret tt) ;;
  let* i := this inputState in
  (if PlayerInputState.shoot i then shoot ;; ret tt else ret tt).

Definition update (dt : number) : M unit :=
  handleMovement dt ;;
  handleActions.

(** The game loop calling [update] once per tick, with the elapsed
    time of each tick. *)
Fixpoint run_frames (dts : list number) : M unit :=
  match dts with
  | [] => ret tt
  | dt :: dts' => update dt ;; run_frames dts'
  end.

(** The value [moveDirection] holds when [handleMovement] returns. *)
Definition movementIntent (i : PlayerInputState.t) : Vector3D.t :=
  let moveDirection := accumulate i in
  if has_input moveDirection then Vector3D.normalize moveDirection
  else moveDirection.

End Methods.

End PlayerController.

(** ** Callers of the manual-override interface *)

Inductive ManualCall : Type := MoveForward | MoveBackward | MoveLeft | MoveRight.

Definition manual (m : ManualCall) (c : PlayerController.t) : PlayerController.t :=
  match m with
  | MoveForward => PlayerController.moveForward c
  | MoveBackward => PlayerController.moveBackward c
  | MoveLeft => PlayerController.moveLeft c
  | MoveRight => PlayerController.moveRight c
  end.

(** A sequence of manual calls, first call first. *)
Definition manual_calls (ms : list ManualCall) (c : PlayerController.t) : PlayerController.t :=
  foldl (λ c m, manual m c) c ms.

(** ** Controller objects, the window and key events together *)

Record World : Type := {
  heap : gmap loc PlayerController.t;   (* the controller objects alive *)
  window : Window.t;                    (* listeners registered on [window] *)
  next_fn : nat                         (* identity of the next function object *)
}.

Definition empty_world : World :=
  {| heap := ∅; window := []; next_fn := 0%nat |}.

(** [new PlayerController(pawn)]: field initialisers, the two handlers
    bound once, then [startListening]. *)
Definition new_PlayerController (w : World) : loc * World :=
  let this := fresh (dom (heap w)) in
  let onKeyDownHandler := Bind (next_fn w) this OnKeyDown in
  let onKeyUpHandler := Bind (S (next_fn w)) this OnKeyUp in
  let c := PlayerController.Build 5.0 0.5 PlayerInputState.initial
             onKeyDownHandler onKeyUpHandler in
  (this, {| heap := <[this := c]> (heap w);
            window := PlayerController.startListening c (window w);
            next_fn := S (S (next_fn w)) |}).

(** [c.destroy()] on the controller object at [this]. *)
Definition destroy (this : loc) (w : World) : World :=
  match heap w !! this with
  | Some c => {| heap := heap w;
                 window := PlayerController.destroy c (window w);
                 next_fn := next_fn w |}
  | None => w
  end.

(** Calling a bound handler with an event: the method runs on the
    object it was bound to. *)
Definition call (f : BoundFunction) (e : KeyboardEvent)
    (h : gmap loc PlayerController.t) : gmap loc PlayerController.t :=
  match h !! fn_this f with
  | Some c =>
      let c' := match fn_method f with
                | OnKeyDown => PlayerController.onKeyDown e c
                | OnKeyUp => PlayerController.onKeyUp e c
                end in
      <[fn_this f := c']> h
  | None => h
  end.

(** The platform delivers a key event: every listener registered for
    its type is called, in registration order. *)
Definition dispatchEvent (type : EventType) (e : KeyboardEvent) (w : World) : World :=
  {| heap := foldl (λ h l, if decide (l_type l = type) then call (l_callback l) e h else h)
                   (heap w) (window w);
     window := window w;
     next_fn := next_fn w |}.

Definition dispatchAll (es : list (EventType * KeyboardEvent)) (w : World) : World :=
  foldl (λ w e, dispatchEvent e.1 e.2 w) w es.

(** The listeners on the window are exactly handlers stored in live
    controller objects, each bound to its own object and registered for
    its own event type, without repetition. *)
Definition owned (h : gmap loc PlayerController.t) (l : Listener) : Prop :=
  ∃ c, h !! fn_this (l_callback l) = Some c ∧
       (l = Build_Listener keydown (PlayerController.onKeyDownHandler c) ∨
        l = Build_Listener keyup (PlayerController.onKeyUpHandler c)).

Definition well_formed (w : World) : Prop :=
  NoDup (window w) ∧ Forall (owned (heap w)) (window w).

(** What can happen to a world: a controller is constructed, a
    controller is destroyed, the platform delivers a key event, or a
    caller uses a manual setter of some controller. *)
Inductive step : World → World → Prop :=
| step_new w :
    step w (new_PlayerController w).2
| step_destroy this w :
    step w (destroy this w)
| step_event type e w :
    step w (dispatchEvent type e w)
| step_manual this m w :
    step w {| heap := alter (manual m) this (heap w);
              window := window w;
              next_fn := next_fn w |}.

(** The worlds a program can reach from the empty one. *)
Definition reachable (w : World) : Prop := rtc step empty_world w.

(** ** An example pawn *)

Module ExamplePawn.

Record t : Type := Build {
  grounded : bool;
  rounds : nat;
  position : Vector3D.t
}.

(** The hit result of this pawn is the number of rounds left. *)
Global Instance ops : Player.ops t nat := {|
  Player.isOnGround := grounded;
  Player.canJump := grounded;
  Player.canShoot := λ p, bool_decide (rounds p ≠ 0%nat);
  Player.move := λ d speed dt p,
    Build (grounded p) (rounds p)
      (Vector3D.new (Vector3D.x (position p) + Vector3D.x d * speed * dt)
                    (Vector3D.y (position p) + Vector3D.y d * speed * dt)
                    (Vector3D.z (position p) + Vector3D.z d * speed * dt));
  Player.jump := λ p, Build false (rounds p) (position p);
  Player.shoot := λ p, (Some (pred (rounds p)), Build (grounded p) (pred (rounds p)) (position p))
|}.

Definition standing : t := Build true 3 (Vector3D.new 0 0 0).
Definition airborne : t := Build false 0 (Vector3D.new 0 1 0).

End ExamplePawn.

(** ** Example controllers *)

Module Examples.

(** A controller as the constructor leaves it, with the given flags
    held. *)
Definition holding (forward backward left right jump shoot : bool) : PlayerController.t :=
  PlayerController.Build 5.0 0.5
    (PlayerInputState.Build forward backward left right jump shoot)
    (Bind 0%nat 0%nat OnKeyDown) (Bind 1%nat 0%nat OnKeyUp).

Definition idle : PlayerController.t := holding false false false false false false.
Definition all_held : PlayerController.t := holding true true true true true true.
Definition forward_only : PlayerController.t := holding true false false false false false.
Definition forward_right : PlayerController.t := holding true false false true false false.

(** Two controllers constructed one after the other in an empty world. *)
Definition first : loc := (new_PlayerController empty_world).1.
Definition second : loc :=
  (new_PlayerController (new_PlayerController empty_world).2).1.
Definition two_controllers : World :=
  (new_PlayerController (new_PlayerController empty_world).2).2.

(** W pressed, Space pressed, W released, Enter pressed. *)
Definition keys : list (EventType * KeyboardEvent) :=
  [(keydown, {| code := "KeyW" |}); (keydown, {| code := "Space" |});
   (keyup, {| code := "KeyW" |}); (keydown, {| code := "Enter" |})].

End Examples.

(** ** The resolver's direction as the spec words it *)

Module Spec.

(** "+1 ... if [positive] held, -1 if [negative]" on one axis. *)
Definition contribution (positive negative : bool) : number :=
  (if positive then 1 else 0) + (if negative then - 1 else 0).

(** The vector sum of the per-axis contributions: lateral axis [x],
    forward axis [z]. *)
Definition direction_sum (i : PlayerInputState.t) : Vector3D.t :=
  Vector3D.new
    (contribution (PlayerInputState.right i) (PlayerInputState.left i))
    0
    (contribution (PlayerInputState.forward i) (PlayerInputState.backward i)).

(** The logical actions and the fixed key table of the spec. *)
Inductive Action : Type := Forward | Backward | Left | Right | Jump | Shoot.

Definition table : list (string * Action) :=
  [("KeyW", Forward); ("ArrowUp", Forward);
   ("KeyS", Backward); ("ArrowDown", Backward);
   ("KeyA", Left); ("ArrowLeft", Left);
   ("KeyD", Right); ("ArrowRight", Right);
   ("Space", Jump);
   ("Mouse0", Shoot); ("Enter", Shoot)]%string.

Fixpoint assoc (k : string) (rows : list (string * Action)) : option Action :=
  match rows with
  | [] => None
  | (key, a) :: rows' => if decide (k = key) then Some a else assoc k rows'
  end.

(** The action bound to a key code, if any. *)
Definition binding (k : string) : option Action := assoc k table.

Definition flag (a : Action) (i : PlayerInputState.t) : bool :=
  match a with
  | Forward => PlayerInputState.forward i
  | Backward => PlayerInputState.backward i
  | Left => PlayerInputState.left i
  | Right => PlayerInputState.right i
  | Jump => PlayerInputState.jump i
  | Shoot => PlayerInputState.shoot i
  end.

(** [setKeyDown(a)] is [set_flag a true], [setKeyUp(a)] is
    [set_flag a false]. *)
Definition set_flag (a : Action) (b : bool) (i : PlayerInputState.t) : PlayerInputState.t :=
  match a with
  | Forward => PlayerInputState.set_forward b i
  | Backward => PlayerInputState.set_backward b i
  | Left => PlayerInputState.set_left b i
  | Right => PlayerInputState.set_right b i
  | Jump => PlayerInputState.set_jump b i
  | Shoot => PlayerInputState.set_shoot b i
  end.

Global Instance Action_eq_dec : EqDecision Action.
Proof. solve_decision. Defined.

End Spec.

(** The flag a manual call is about. *)
Definition manual_action (m : ManualCall) : Spec.Action :=
  match m with
  | MoveForward => Spec.Forward
  | MoveBackward => Spec.Backward
  | MoveLeft => Spec.Left
  | MoveRight => Spec.Right
  end.

(** ** Key events as one controller sees them *)

(** The handler that runs for an event of the given type. *)
Definition handle (ev : EventType * KeyboardEvent) (c : PlayerController.t) : PlayerController.t :=
  match ev.1 with
  | keydown => PlayerController.onKeyDown ev.2 c
  | keyup => PlayerController.onKeyUp ev.2 c
  end.

(** A history of events handled in order, oldest first. *)
Definition handle_all (evs : list (EventType * KeyboardEvent)) (c : PlayerController.t)
    : PlayerController.t :=
  foldl (λ c ev, handle ev c) c evs.

(** What the most recent event on a key bound to action [a] was: a
    press ([true]) or a release ([false]); [None] when the history has
    no event for [a]. *)
Fixpoint latest (a : Spec.Action) (evs : list (EventType * KeyboardEvent)) : option bool :=
  match evs with
  | [] => None
  | ev :: evs' =>
      match latest a evs' with
      | Some b => Some b
      | None =>
          if decide (Spec.binding (code ev.2) = Some a)
          then Some (bool_decide (ev.1 = keydown))
          else None
      end
  end.

(** ** Directions *)

(** The input state with forward/backward and left/right exchanged. *)
Definition mirror (i : PlayerInputState.t) : PlayerInputState.t :=
  PlayerInputState.Build
    (PlayerInputState.backward i) (PlayerInputState.forward i)
    (PlayerInputState.right i) (PlayerInputState.left i)
    (PlayerInputState.jump i) (PlayerInputState.shoot i).

Definition opposite (v : Vector3D.t) : Vector3D.t :=
  Vector3D.new (- Vector3D.x v) (- Vector3D.y v) (- Vector3D.z v).

(** The elapsed times carried by the move commands of a trace, in
    order. *)
Definition move_dts (tr : list Call) : list number :=
  omap (λ c, match c with PawnMove _ _ dt => Some dt | _ => None end) tr.

(** ** Handlers and listeners of live controllers *)

(** The function object a controller registers for an event type. *)
Definition stored_handler (type : EventType) (c : PlayerController.t) : BoundFunction :=
  match type with
  | keydown => PlayerController.onKeyDownHandler c
  | keyup => PlayerController.onKeyUpHandler c
  end.

Definition method_of (type : EventType) : Method :=
  match type with keydown => OnKeyDown | keyup => OnKeyUp end.

(** The controller's listener for an event type. *)
Definition listener_of (type : EventType) (c : PlayerController.t) : Listener :=
  Build_Listener type (stored_handler type c).

(** Both stored handlers are bound to the object that stores them, each
    to its own method. *)
Definition bound_to (this : loc) (c : PlayerController.t) : Prop :=
  ∀ type, fn_this (stored_handler type c) = this
          ∧ fn_method (stored_handler type c) = method_of type.

Definition handlers_bound (w : World) : Prop :=
  ∀ this c, heap w !! this = Some c → bound_to this c.

(** Two controller objects storing the same function objects. *)
Definition same_handlers (c c' : PlayerController.t) : Prop :=
  ∀ type, stored_handler type c = stored_handler type c'.

(** * Properties *)

(** ** Numbers and vectors *)

Lemma strict_neq_true a b : strict_neq a b = true ↔ a ≠ b.
Proof. unfold strict_neq. destruct (Req_dec_T a b); split; congruence. Qed.

Lemma strict_neq_false a b : strict_neq a b = false ↔ a = b.
Proof. unfold strict_neq. destruct (Req_dec_T a b); split; congruence. Qed.

Lemma has_input_true v :
  PlayerController.has_input v = true ↔ Vector3D.x v ≠ 0 ∨ Vector3D.z v ≠ 0.
Proof.
  unfold PlayerController.has_input.
  rewrite orb_true_iff, !strict_neq_true. tauto.
Qed.

Lemma has_input_false v :
  PlayerController.has_input v = false ↔ Vector3D.x v = 0 ∧ Vector3D.z v = 0.
Proof.
  unfold PlayerController.has_input.
  rewrite orb_false_iff, !strict_neq_false. tauto.
Qed.

Lemma vector_eq (a b : Vector3D.t) :
  Vector3D.x a = Vector3D.x b → Vector3D.y a = Vector3D.y b →
  Vector3D.z a = Vector3D.z b → a = b.
Proof. destruct a, b; simpl; congruence. Qed.

(** ** The accumulator *)

Lemma accumulate_x i :
  Vector3D.x (PlayerController.accumulate i) =
  Spec.contribution (PlayerInputState.right i) (PlayerInputState.left i).
Proof.
  unfold PlayerController.accumulate, Spec.contribution.
  destruct i as [f b l r j s]; simpl.
  destruct f, b, r, l; simpl; lra.
Qed.

Lemma accumulate_y i : Vector3D.y (PlayerController.accumulate i) = 0.
Proof.
  unfold PlayerController.accumulate.
  destruct i as [f b l r j s]; simpl.
  destruct f, b, r, l; reflexivity.
Qed.

Lemma accumulate_z i :
  Vector3D.z (PlayerController.accumulate i) =
  Spec.contribution (PlayerInputState.forward i) (PlayerInputState.backward i).
Proof.
  unfold PlayerController.accumulate, Spec.contribution.
  destruct i as [f b l r j s]; simpl.
  destruct f, b, r, l; simpl; lra.
Qed.

Lemma contribution_zero a b : Spec.contribution a b = 0 ↔ a = b.
Proof. unfold Spec.contribution. destruct a, b; split; intros; try done; lra. Qed.

(** There is movement input exactly when one axis has a key held
    without its opposite. *)
Lemma has_input_accumulate i :
  PlayerController.has_input (PlayerController.accumulate i) =
  negb (eqb (PlayerInputState.right i) (PlayerInputState.left i))
  || negb (eqb (PlayerInputState.forward i) (PlayerInputState.backward i)).
Proof.
  apply eq_true_iff_eq.
  rewrite has_input_true, accumulate_x, accumulate_z, orb_true_iff, !negb_true_iff.
  rewrite !eqb_false_iff, !contribution_zero. tauto.
Qed.

(** ** Counting calls *)

Lemma count_app p (a b : list Call) : count p (a ++ b) = (count p a + count p b)%nat.
Proof. unfold count. by rewrite List.filter_app, List.length_app. Qed.

(** ** Running the methods *)

(** Unfold the monad and the primitive calls, leaving the pawn's
    answers as the only unknowns. *)
Ltac run_methods :=
  cbv [PlayerController.update PlayerController.handleActions
       PlayerController.handleMovement PlayerController.jump PlayerController.shoot
       PlayerController.bind PlayerController.ret PlayerController.this
       PlayerController.ask PlayerController.tell PlayerController.vec_normalize
       PlayerController.pawn_isOnGround PlayerController.pawn_canJump
       PlayerController.pawn_canShoot PlayerController.pawn_jump
       PlayerController.pawn_shoot PlayerController.pawn_move];
  cbn [PlayerController.value PlayerController.final PlayerController.calls
       PlayerController.self PlayerController.pawn fst snd].

Section Resolver.

Context {P H : Type} `{!Player.ops P H}.

Implicit Types (s : PlayerController.State (P := P)) (c : PlayerController.t) (p : P).
Implicit Types (dt : number).

(** The speed [handleMovement] computes for the pawn as it stands. *)
Local Abbreviation currentSpeed c p :=
  (if Player.isOnGround p then PlayerController.moveSpeed c
   else PlayerController.moveSpeed c * PlayerController.airControlModifier c).

Local Abbreviation direction c :=
  (PlayerController.accumulate (PlayerController.inputState c)).

Lemma handleMovement_idle s dt :
  PlayerController.has_input (direction (PlayerController.self s)) = false →
  PlayerController.handleMovement dt s =
    {| PlayerController.value := tt;
       PlayerController.final := s;
       PlayerController.calls := [] |}.
Proof.
  intros Hno. unfold PlayerController.handleMovement, PlayerController.bind,
    PlayerController.this; simpl.
  rewrite Hno. reflexivity.
Qed.

Lemma handleMovement_moving s dt :
  PlayerController.has_input (direction (PlayerController.self s)) = true →
  let d := Vector3D.normalize (direction (PlayerController.self s)) in
  let speed := currentSpeed (PlayerController.self s) (PlayerController.pawn s) in
  PlayerController.handleMovement dt s =
    {| PlayerController.value := tt;
       PlayerController.final :=
         {| PlayerController.self := PlayerController.self s;
            PlayerController.pawn := Player.move d speed dt (PlayerController.pawn s) |};
       PlayerController.calls :=
         [VecNormalize (direction (PlayerController.self s));
          PawnIsOnGround;
          PawnMove d speed dt] |}.
Proof.
  intros Hyes. unfold PlayerController.handleMovement, PlayerController.bind,
    PlayerController.this; simpl.
  rewrite Hyes. simpl.
  destruct (Player.isOnGround (PlayerController.pawn s)); reflexivity.
Qed.

Lemma handleMovement_self s dt :
  PlayerController.self (PlayerController.final (PlayerController.handleMovement dt s)) =
  PlayerController.self s.
Proof.
  destruct (PlayerController.has_input (direction (PlayerController.self s))) eqn:E.
  - by rewrite handleMovement_moving.
  - by rewrite handleMovement_idle.
Qed.

Lemma jump_eligible s :
  Player.canJump (PlayerController.pawn s) = true →
  PlayerController.jump s =
    {| PlayerController.value := true;
       PlayerController.final :=
         {| PlayerController.self := PlayerController.self s;
            PlayerController.pawn := Player.jump (PlayerController.pawn s) |};
       PlayerController.calls := [PawnCanJump; PawnJump] |}.
Proof.
  intros E. unfold PlayerController.jump, PlayerController.bind; simpl.
  rewrite E. reflexivity.
Qed.

Lemma jump_not_eligible s :
  Player.canJump (PlayerController.pawn s) = false →
  PlayerController.jump s =
    {| PlayerController.value := false;
       PlayerController.final := s;
       PlayerController.calls := [PawnCanJump] |}.
Proof.
  intros E. unfold PlayerController.jump, PlayerController.bind; simpl.
  rewrite E. reflexivity.
Qed.

Lemma shoot_eligible s :
  Player.canShoot (PlayerController.pawn s) = true →
  PlayerController.shoot s =
    {| PlayerController.value := (Player.shoot (PlayerController.pawn s)).1;
       PlayerController.final :=
         {| PlayerController.self := PlayerController.self s;
            PlayerController.pawn := (Player.shoot (PlayerController.pawn s)).2 |};
       PlayerController.calls := [PawnCanShoot; PawnShoot] |}.
Proof.
  intros E. unfold PlayerController.shoot, PlayerController.bind; simpl.
  rewrite E. reflexivity.
Qed.

Lemma shoot_not_eligible s :
  Player.canShoot (PlayerController.pawn s) = false →
  PlayerController.shoot s =
    {| PlayerController.value := None;
       PlayerController.final := s;
       PlayerController.calls := [PawnCanShoot] |}.
Proof.
  intros E. unfold PlayerController.shoot, PlayerController.bind; simpl.
  rewrite E. reflexivity.
Qed.

Lemma jump_self s :
  PlayerController.self (PlayerController.final (PlayerController.jump s)) =
  PlayerController.self s.
Proof.
  destruct (Player.canJump (PlayerController.pawn s)) eqn:E.
  - by rewrite jump_eligible.
  - by rewrite jump_not_eligible.
Qed.

Lemma shoot_self s :
  PlayerController.self (PlayerController.final (PlayerController.shoot s)) =
  PlayerController.self s.
Proof.
  destruct (Player.canShoot (PlayerController.pawn s)) eqn:E.
  - by rewrite shoot_eligible.
  - by rewrite shoot_not_eligible.
Qed.

(** Calls of [jump]: always the eligibility query, then at most the command. *)
Lemma jump_calls s :
  PlayerController.calls (PlayerController.jump s) =
  PawnCanJump :: (if Player.canJump (PlayerController.pawn s) then [PawnJump] else []).
Proof.
  destruct (Player.canJump (PlayerController.pawn s)) eqn:E.
  - by rewrite jump_eligible.
  - by rewrite jump_not_eligible.
Qed.

Lemma shoot_calls s :
  PlayerController.calls (PlayerController.shoot s) =
  PawnCanShoot :: (if Player.canShoot (PlayerController.pawn s) then [PawnShoot] else []).
Proof.
  destruct (Player.canShoot (PlayerController.pawn s)) eqn:E.
  - by rewrite shoot_eligible.
  - by rewrite shoot_not_eligible.
Qed.

(** [handleActions] in terms of the two flags. *)
Lemma handleActions_calls s :
  let i := PlayerController.inputState (PlayerController.self s) in
  let s1 := if PlayerInputState.jump i
            then PlayerController.final (PlayerController.jump s) else s in
  PlayerController.calls (PlayerController.handleActions s) =
    (if PlayerInputState.jump i
     then PlayerController.calls (PlayerController.jump s) else [])
    ++ (if PlayerInputState.shoot i
        then PlayerController.calls (PlayerController.shoot s1) else []).
Proof.
  destruct s as [[ms acm [f b l r j sh] kd ku] p]. run_methods.
  destruct j, sh; cbn; repeat (case_match; cbn); reflexivity.
Qed.

Lemma handleActions_self s :
  PlayerController.self (PlayerController.final (PlayerController.handleActions s)) =
  PlayerController.self s.
Proof.
  destruct s as [[ms acm [f b l r j sh] kd ku] p]. run_methods.
  destruct j, sh; cbn; repeat (case_match; cbn); reflexivity.
Qed.

Lemma update_calls s dt :
  PlayerController.calls (PlayerController.update dt s) =
  PlayerController.calls (PlayerController.handleMovement dt s)
  ++ PlayerController.calls
       (PlayerController.handleActions
          (PlayerController.final (PlayerController.handleMovement dt s))).
Proof. reflexivity. Qed.

Lemma update_self s dt :
  PlayerController.self (PlayerController.final (PlayerController.update dt s)) =
  PlayerController.self s.
Proof.
  unfold PlayerController.update, PlayerController.bind.
  cbn [PlayerController.final].
  by rewrite handleActions_self, handleMovement_self.
Qed.

Lemma handleMovement_calls s dt :
  PlayerController.calls (PlayerController.handleMovement dt s) =
  if PlayerController.has_input (direction (PlayerController.self s)) then
    [VecNormalize (direction (PlayerController.self s));
     PawnIsOnGround;
     PawnMove (Vector3D.normalize (direction (PlayerController.self s)))
              (currentSpeed (PlayerController.self s) (PlayerController.pawn s)) dt]
  else [].
Proof.
  destruct (PlayerController.has_input _) eqn:E.
  - by rewrite handleMovement_moving.
  - by rewrite handleMovement_idle.
Qed.

End Resolver.

(** ** The per-frame resolver *)

(** Split a goal about the counts of calls in one frame into the cases
    of movement input, the two action flags and the pawn's answers. *)
Ltac frame_cases :=
  rewrite update_calls, handleMovement_calls, handleActions_calls; cbv zeta;
  rewrite ?handleMovement_self, !count_app;
  destruct (PlayerController.has_input _), (PlayerInputState.jump _),
    (PlayerInputState.shoot _);
  rewrite ?jump_calls, ?shoot_calls; repeat case_match.

Section Frame.

Context {P H : Type} `{!Player.ops P H}.

Implicit Types (s : PlayerController.State (P := P)) (c : PlayerController.t) (p : P).
Implicit Types (dt : number).

Lemma update_count_move s dt :
  count is_move (PlayerController.calls (PlayerController.update dt s)) =
  if PlayerController.has_input
       (PlayerController.accumulate
          (PlayerController.inputState (PlayerController.self s)))
  then 1%nat else 0%nat.
Proof.
  frame_cases; reflexivity.
Qed.

Lemma update_count_jump_attempt s dt :
  count is_jump_attempt (PlayerController.calls (PlayerController.update dt s)) =
  if PlayerInputState.jump (PlayerController.inputState (PlayerController.self s))
  then 1%nat else 0%nat.
Proof.
  frame_cases; reflexivity.
Qed.

Lemma update_count_shoot_attempt s dt :
  count is_shoot_attempt (PlayerController.calls (PlayerController.update dt s)) =
  if PlayerInputState.shoot (PlayerController.inputState (PlayerController.self s))
  then 1%nat else 0%nat.
Proof.
  frame_cases; reflexivity.
Qed.

Lemma update_count_jump s dt :
  (count is_jump (PlayerController.calls (PlayerController.update dt s)) ≤ 1)%nat.
Proof.
  frame_cases; cbn; lia.
Qed.

Lemma update_count_shoot s dt :
  (count is_shoot (PlayerController.calls (PlayerController.update dt s)) ≤ 1)%nat.
Proof.
  frame_cases; cbn; lia.
Qed.

Lemma run_frames_self dts : ∀ s,
  PlayerController.self (PlayerController.final (PlayerController.run_frames dts s)) =
  PlayerController.self s.
Proof.
  induction dts as [|dt dts IH]; intros s; [reflexivity|].
  cbn [PlayerController.run_frames]. unfold PlayerController.bind.
  cbn [PlayerController.final]. by rewrite IH, update_self.
Qed.

(** Over any number of frames, a flag that stays as it is yields one
    attempt per frame. *)
Lemma run_frames_attempts dts : ∀ s,
  count is_jump_attempt (PlayerController.calls (PlayerController.run_frames dts s)) =
    (if PlayerInputState.jump (PlayerController.inputState (PlayerController.self s))
     then List.length dts else 0%nat)
  ∧ count is_shoot_attempt (PlayerController.calls (PlayerController.run_frames dts s)) =
    (if PlayerInputState.shoot (PlayerController.inputState (PlayerController.self s))
     then List.length dts else 0%nat).
Proof.
  induction dts as [|dt dts IH]; intros s.
  - split; cbn; by case_match.
  - cbn [PlayerController.run_frames]. unfold PlayerController.bind.
    cbn [PlayerController.calls]. rewrite !count_app.
    destruct (IH (PlayerController.final (PlayerController.update dt s))) as [IHj IHs].
    rewrite update_self in IHj, IHs.
    rewrite IHj, IHs, update_count_jump_attempt, update_count_shoot_attempt.
    destruct (PlayerInputState.jump _), (PlayerInputState.shoot _);
      split; reflexivity.
Qed.

End Frame.

(** ** Length and normalization *)

Lemma sum_of_squares_nonneg (v : Vector3D.t) :
  0 <= Vector3D.x v * Vector3D.x v + Vector3D.y v * Vector3D.y v
       + Vector3D.z v * Vector3D.z v.
Proof. nra. Qed.

Lemma length_nonneg v : 0 <= Vector3D.length v.
Proof. apply sqrt_pos. Qed.

Lemma length_zero v :
  Vector3D.length v = 0 ↔ Vector3D.x v = 0 ∧ Vector3D.y v = 0 ∧ Vector3D.z v = 0.
Proof.
  unfold Vector3D.length. split.
  - intros E. apply sqrt_eq_0 in E; [|apply sum_of_squares_nonneg]. nra.
  - intros (-> & -> & ->). rewrite !Rmult_0_l, !Rplus_0_l. apply sqrt_0.
Qed.

Lemma length_sqr v :
  Vector3D.length v * Vector3D.length v =
  Vector3D.x v * Vector3D.x v + Vector3D.y v * Vector3D.y v + Vector3D.z v * Vector3D.z v.
Proof. apply sqrt_sqrt, sum_of_squares_nonneg. Qed.

(** Normalizing a vector of non-zero length gives a vector of length 1. *)
Lemma length_normalize v :
  Vector3D.length v ≠ 0 → Vector3D.length (Vector3D.normalize v) = 1.
Proof.
  intros Hne. unfold Vector3D.normalize.
  set (L := Vector3D.length v) in *.
  unfold Vector3D.length at 1. cbn [Vector3D.x Vector3D.y Vector3D.z].
  replace (Vector3D.x v / L * (Vector3D.x v / L) + Vector3D.y v / L * (Vector3D.y v / L)
           + Vector3D.z v / L * (Vector3D.z v / L))
    with ((L * L) / (L * L)).
  - replace (L * L / (L * L)) with 1 by (field; exact Hne). apply sqrt_1.
  - unfold L at 1 2. rewrite length_sqr. fold L. field. exact Hne.
Qed.

Lemma has_input_length v :
  PlayerController.has_input v = true → Vector3D.length v ≠ 0.
Proof.
  intros Hin Hz. apply has_input_true in Hin. apply length_zero in Hz. tauto.
Qed.

(** Without movement input the accumulator is the zero vector. *)
Lemma accumulate_no_input i :
  PlayerController.has_input (PlayerController.accumulate i) = false →
  PlayerController.accumulate i = Vector3D.new 0 0 0.
Proof.
  intros Hno. apply has_input_false in Hno as [Hx Hz].
  apply vector_eq; cbn [Vector3D.x Vector3D.y Vector3D.z];
    [exact Hx | apply accumulate_y | exact Hz].
Qed.

Lemma length_movementIntent i :
  Vector3D.length (PlayerController.movementIntent i) =
  if PlayerController.has_input (PlayerController.accumulate i) then 1 else 0.
Proof.
  unfold PlayerController.movementIntent.
  destruct (PlayerController.has_input _) eqn:E.
  - by apply length_normalize, has_input_length.
  - rewrite (accumulate_no_input i E). by apply length_zero.
Qed.

(** ** Properties of every move command and every normalization *)

Lemma every_move_app Q (a b : list Call) :
  every_move Q (a ++ b) ↔ every_move Q a ∧ every_move Q b.
Proof. apply Forall_app. Qed.

Lemma every_normalize_app Q (a b : list Call) :
  every_normalize Q (a ++ b) ↔ every_normalize Q a ∧ every_normalize Q b.
Proof. apply Forall_app. Qed.

Section Commands.

Context {P H : Type} `{!Player.ops P H}.

Implicit Types (s : PlayerController.State (P := P)) (c : PlayerController.t) (p : P).

Lemma handleActions_no_move s Q :
  every_move Q (PlayerController.calls (PlayerController.handleActions s)).
Proof.
  rewrite handleActions_calls. cbv zeta. apply every_move_app.
  split; case_match; rewrite ?jump_calls, ?shoot_calls;
    repeat case_match; repeat constructor.
Qed.

Lemma handleActions_no_normalize s Q :
  every_normalize Q (PlayerController.calls (PlayerController.handleActions s)).
Proof.
  rewrite handleActions_calls. cbv zeta. apply every_normalize_app.
  split; case_match; rewrite ?jump_calls, ?shoot_calls;
    repeat case_match; repeat constructor.
Qed.

(** What holds of the one move command of [handleMovement] holds of
    every move command of the frame. *)
Lemma update_every_move s dt (Q : Vector3D.t → number → number → Prop) :
  (PlayerController.has_input
     (PlayerController.accumulate (PlayerController.inputState (PlayerController.self s)))
   = true →
   Q (Vector3D.normalize
        (PlayerController.accumulate (PlayerController.inputState (PlayerController.self s))))
     (if Player.isOnGround (PlayerController.pawn s)
      then PlayerController.moveSpeed (PlayerController.self s)
      else PlayerController.moveSpeed (PlayerController.self s)
           * PlayerController.airControlModifier (PlayerController.self s))
     dt) →
  every_move Q (PlayerController.calls (PlayerController.update dt s)).
Proof.
  intros HQ. rewrite update_calls. apply every_move_app.
  split; [|apply handleActions_no_move].
  rewrite handleMovement_calls.
  destruct (PlayerController.has_input _); repeat constructor. by apply HQ.
Qed.

Lemma update_every_normalize s dt (Q : Vector3D.t → Prop) :
  (PlayerController.has_input
     (PlayerController.accumulate (PlayerController.inputState (PlayerController.self s)))
   = true →
   Q (PlayerController.accumulate (PlayerController.inputState (PlayerController.self s)))) →
  every_normalize Q (PlayerController.calls (PlayerController.update dt s)).
Proof.
  intros HQ. rewrite update_calls. apply every_normalize_app.
  split; [|apply handleActions_no_normalize].
  rewrite handleMovement_calls.
  destruct (PlayerController.has_input _); repeat constructor. by apply HQ.
Qed.

End Commands.

Section Frames.

Context {P H : Type} `{!Player.ops P H}.

(** A zero vector is never handed to [normalize], however many frames
    the game loop runs. *)
Lemma run_frames_every_normalize dts : ∀ s : PlayerController.State (P := P),
  every_normalize
    (λ v, (Vector3D.x v ≠ 0 ∨ Vector3D.z v ≠ 0) ∧ Vector3D.length v ≠ 0)
    (PlayerController.calls (PlayerController.run_frames dts s)).
Proof.
  induction dts as [|dt dts IH]; intros s; [constructor|].
  cbn [PlayerController.run_frames]. unfold PlayerController.bind.
  cbn [PlayerController.calls]. apply every_normalize_app. split; [|apply IH].
  apply update_every_normalize. intros Hin. split.
  - by apply has_input_true.
  - by apply has_input_length.
Qed.

End Frames.

(** ** Construction *)

Lemma new_PlayerController_fields w :
  heap (new_PlayerController w).2 !! (new_PlayerController w).1 =
  Some (PlayerController.Build 5.0 0.5 PlayerInputState.initial
          (Bind (next_fn w) (fresh (dom (heap w))) OnKeyDown)
          (Bind (S (next_fn w)) (fresh (dom (heap w))) OnKeyUp)).
Proof. unfold new_PlayerController. cbn [fst snd heap]. apply lookup_insert_eq. Qed.

(** ** Direction accumulator and the move command *)

(** C1. For every input state the direction vector before normalization
    is the vector sum of the per-axis contributions (+1 forward, -1
    backward on the forward axis; +1 right, -1 left on the lateral
    axis); a key held together with its opposite gives zero on that
    axis; and when the vector is zero, [update] issues no move command
    in that frame. *)
Theorem C1_direction_is_sum_of_contributions
    {P H : Type} `{!Player.ops P H} (c : PlayerController.t) (p : P) (dt : number) :
  let i := PlayerController.inputState c in
  let d := PlayerController.accumulate i in
  let frame := PlayerController.update dt
                 {| PlayerController.self := c; PlayerController.pawn := p |} in
  d = Spec.direction_sum i
  ∧ (PlayerInputState.forward i = true → PlayerInputState.backward i = true →
     Vector3D.z d = 0)
  ∧ (PlayerInputState.left i = true → PlayerInputState.right i = true →
     Vector3D.x d = 0)
  ∧ (d = Vector3D.new 0 0 0 → count is_move (PlayerController.calls frame) = 0%nat).
Proof.
  intros i d frame. repeat split.
  - apply vector_eq; unfold d.
    + apply accumulate_x.
    + apply accumulate_y.
    + apply accumulate_z.
  - intros Hf Hb. unfold d. rewrite accumulate_z. by apply contribution_zero; congruence.
  - intros Hl Hr. unfold d. rewrite accumulate_x. by apply contribution_zero; congruence.
  - intros Hzero. unfold frame. rewrite update_count_move.
    cbn [PlayerController.self]. fold i. fold d.
    replace (PlayerController.has_input d) with false; [reflexivity|].
    symmetry. apply has_input_false. by rewrite Hzero.
Qed.

Lemma C1_witness :
  count is_move
    (PlayerController.calls
       (PlayerController.update 0.016
          {| PlayerController.self := Examples.all_held;
             PlayerController.pawn := ExamplePawn.standing |})) = 0%nat.
Proof.
  apply (C1_direction_is_sum_of_contributions
           Examples.all_held ExamplePawn.standing 0.016).
  apply vector_eq; simpl; lra.
Defined.

(** ** One command of each kind per frame *)

(** C2. One call of [update] issues at most one move command, at most
    one jump attempt and at most one shoot attempt; the jump attempt is
    made exactly when the jump flag is held and the shoot attempt exactly
    when the shoot flag is held, again in every later frame while the
    flag stays held; and [update] leaves the controller object, its
    InputState included, as it found it. *)
Theorem C2_update_issues_each_command_at_most_once
    {P H : Type} `{!Player.ops P H} (c : PlayerController.t) (p : P) (dt : number) :
  let i := PlayerController.inputState c in
  let s := {| PlayerController.self := c; PlayerController.pawn := p |} in
  let frame := PlayerController.update dt s in
  (count is_move (PlayerController.calls frame) ≤ 1)%nat
  ∧ count is_jump_attempt (PlayerController.calls frame) =
      (if PlayerInputState.jump i then 1 else 0)%nat
  ∧ (count is_jump (PlayerController.calls frame) ≤ 1)%nat
  ∧ count is_shoot_attempt (PlayerController.calls frame) =
      (if PlayerInputState.shoot i then 1 else 0)%nat
  ∧ (count is_shoot (PlayerController.calls frame) ≤ 1)%nat
  ∧ PlayerController.self (PlayerController.final frame) = c
  ∧ (∀ dts : list number,
       let frames := PlayerController.run_frames dts s in
       count is_jump_attempt (PlayerController.calls frames) =
         (if PlayerInputState.jump i then List.length dts else 0%nat)
       ∧ count is_shoot_attempt (PlayerController.calls frames) =
         (if PlayerInputState.shoot i then List.length dts else 0%nat)
       ∧ PlayerController.self (PlayerController.final frames) = c).
Proof.
  intros i s frame. unfold frame.
  split; [rewrite update_count_move; case_match; lia|].
  split; [apply update_count_jump_attempt|].
  split; [apply update_count_jump|].
  split; [apply update_count_shoot_attempt|].
  split; [apply update_count_shoot|].
  split; [apply update_self|].
  intros dts. cbv zeta.
  destruct (run_frames_attempts dts s) as [Hj Hs].
  repeat split; [exact Hj | exact Hs | apply run_frames_self].
Qed.

(** ** Action gating *)

(** C3. [jump()] returns true and issues exactly one jump command when
    the pawn's [canJump()] says eligible, and returns false issuing no
    jump command otherwise; [shoot()] returns the pawn's shot result when
    [canShoot()] says eligible and [undefined] with no shot otherwise.
    Both only delegate: the outcome does not depend on the controller's
    fields, and the controller object is left as it was. *)
Theorem C3_jump_and_shoot_delegate_to_the_pawn
    {P H : Type} `{!Player.ops P H} (c : PlayerController.t) (p : P) :
  let s := {| PlayerController.self := c; PlayerController.pawn := p |} in
  (Player.canJump p = true →
     PlayerController.value (PlayerController.jump s) = true
     ∧ count is_jump (PlayerController.calls (PlayerController.jump s)) = 1%nat
     ∧ PlayerController.pawn (PlayerController.final (PlayerController.jump s)) =
         Player.jump p)
  ∧ (Player.canJump p = false →
     PlayerController.value (PlayerController.jump s) = false
     ∧ count is_jump (PlayerController.calls (PlayerController.jump s)) = 0%nat
     ∧ PlayerController.final (PlayerController.jump s) = s)
  ∧ (Player.canShoot p = true →
     PlayerController.value (PlayerController.shoot s) = (Player.shoot p).1
     ∧ count is_shoot (PlayerController.calls (PlayerController.shoot s)) = 1%nat
     ∧ PlayerController.pawn (PlayerController.final (PlayerController.shoot s)) =
         (Player.shoot p).2)
  ∧ (Player.canShoot p = false →
     PlayerController.value (PlayerController.shoot s) = None
     ∧ count is_shoot (PlayerController.calls (PlayerController.shoot s)) = 0%nat
     ∧ PlayerController.final (PlayerController.shoot s) = s)
  ∧ PlayerController.self (PlayerController.final (PlayerController.jump s)) = c
  ∧ PlayerController.self (PlayerController.final (PlayerController.shoot s)) = c
  ∧ (∀ c' : PlayerController.t,
       let s' := {| PlayerController.self := c'; PlayerController.pawn := p |} in
       PlayerController.value (PlayerController.jump s') =
         PlayerController.value (PlayerController.jump s)
       ∧ PlayerController.calls (PlayerController.jump s') =
         PlayerController.calls (PlayerController.jump s)
       ∧ PlayerController.value (PlayerController.shoot s') =
         PlayerController.value (PlayerController.shoot s)
       ∧ PlayerController.calls (PlayerController.shoot s') =
         PlayerController.calls (PlayerController.shoot s)).
Proof.
  intros s. unfold s.
  split; [intros E; by rewrite jump_eligible|].
  split; [intros E; by rewrite jump_not_eligible|].
  split; [intros E; by rewrite shoot_eligible|].
  split; [intros E; by rewrite shoot_not_eligible|].
  split; [apply jump_self|].
  split; [apply shoot_self|].
  intros c'. cbv zeta.
  destruct (Player.canJump p) eqn:Ej, (Player.canShoot p) eqn:Es;
    rewrite ?jump_eligible, ?jump_not_eligible, ?shoot_eligible, ?shoot_not_eligible
      by assumption; done.
Qed.

Lemma C3_witness :
  let s := {| PlayerController.self := Examples.idle;
              PlayerController.pawn := ExamplePawn.standing |} in
  let a := {| PlayerController.self := Examples.idle;
              PlayerController.pawn := ExamplePawn.airborne |} in
  (PlayerController.value (PlayerController.jump s) = true
   ∧ count is_jump (PlayerController.calls (PlayerController.jump s)) = 1%nat)
  ∧ (PlayerController.value (PlayerController.jump a) = false
     ∧ count is_jump (PlayerController.calls (PlayerController.jump a)) = 0%nat)
  ∧ (PlayerController.value (PlayerController.shoot s) = Some 2%nat
     ∧ count is_shoot (PlayerController.calls (PlayerController.shoot s)) = 1%nat)
  ∧ (PlayerController.value (PlayerController.shoot a) = None
     ∧ count is_shoot (PlayerController.calls (PlayerController.shoot a)) = 0%nat).
Proof.
  intros s a.
  pose proof (C3_jump_and_shoot_delegate_to_the_pawn
                Examples.idle ExamplePawn.standing) as (Hj & _ & Hs & _).
  pose proof (C3_jump_and_shoot_delegate_to_the_pawn
                Examples.idle ExamplePawn.airborne) as (_ & Hnj & _ & Hns & _).
  specialize (Hj eq_refl) as (Hj1 & Hj2 & _).
  specialize (Hnj eq_refl) as (Hnj1 & Hnj2 & _).
  specialize (Hs eq_refl) as (Hs1 & Hs2 & _).
  specialize (Hns eq_refl) as (Hns1 & Hns2 & _).
  repeat split; assumption.
Defined.

(** ** Magnitude of the movement direction *)

(** C4. For every input state the movement direction derived in a frame
    has magnitude 0 when there is no net directional input and exactly 1
    otherwise; the direction carried by a move command is that vector and
    has magnitude 1; so no input, diagonal or not, gives a longer vector
    than a cardinal one. *)
Theorem C4_movement_direction_has_magnitude_zero_or_one
    {P H : Type} `{!Player.ops P H} (c : PlayerController.t) (p : P) (dt : number) :
  let i := PlayerController.inputState c in
  let intent := PlayerController.movementIntent i in
  let frame := PlayerController.update dt
                 {| PlayerController.self := c; PlayerController.pawn := p |} in
  Vector3D.length intent =
    (if negb (eqb (PlayerInputState.right i) (PlayerInputState.left i))
        || negb (eqb (PlayerInputState.forward i) (PlayerInputState.backward i))
     then 1 else 0)
  ∧ every_move (λ d _ _, d = intent ∧ Vector3D.length d = 1) (PlayerController.calls frame)
  ∧ (∀ i1 i2 : PlayerInputState.t,
       PlayerController.has_input (PlayerController.accumulate i1) = true →
       Vector3D.length (PlayerController.movementIntent i2) <=
       Vector3D.length (PlayerController.movementIntent i1)).
Proof.
  intros i intent frame. split; [|split].
  - unfold intent. by rewrite length_movementIntent, has_input_accumulate.
  - apply update_every_move. cbn [PlayerController.self]. fold i. intros Hin.
    unfold intent, PlayerController.movementIntent. rewrite Hin. split; [reflexivity|].
    by apply length_normalize, has_input_length.
  - intros i1 i2 Hin. rewrite !length_movementIntent, Hin.
    case_match; lra.
Qed.

Lemma C4_witness :
  Vector3D.length
    (PlayerController.movementIntent (PlayerController.inputState Examples.forward_right)) <=
  Vector3D.length
    (PlayerController.movementIntent (PlayerController.inputState Examples.forward_only)).
Proof.
  apply (C4_movement_direction_has_magnitude_zero_or_one
           Examples.idle ExamplePawn.standing 0).
  apply has_input_true. right. simpl. lra.
Defined.

(** ** Commanded speed *)

(** C5. Every move command issued by [update] carries the speed
    [moveSpeed] when the pawn reports [isOnGround()], and
    [moveSpeed * airControlModifier] when it is airborne; a controller
    as constructed has [moveSpeed = 5.0] and [airControlModifier = 0.5],
    a factor below 1, so its airborne speed is 2.5. *)
Theorem C5_commanded_speed
    {P H : Type} `{!Player.ops P H} (c : PlayerController.t) (p : P) (dt : number) :
  let frame := PlayerController.update dt
                 {| PlayerController.self := c; PlayerController.pawn := p |} in
  every_move
    (λ _ speed _,
       speed = if Player.isOnGround p then PlayerController.moveSpeed c
               else PlayerController.moveSpeed c * PlayerController.airControlModifier c)
    (PlayerController.calls frame)
  ∧ (PlayerController.moveSpeed c = 5.0 → PlayerController.airControlModifier c = 0.5 →
     Player.isOnGround p = false →
     every_move (λ _ speed _, speed = 2.5) (PlayerController.calls frame))
  ∧ (∀ w : World, ∃ c0 : PlayerController.t,
       heap (new_PlayerController w).2 !! (new_PlayerController w).1 = Some c0
       ∧ PlayerController.moveSpeed c0 = 5.0
       ∧ PlayerController.airControlModifier c0 = 0.5
       ∧ PlayerController.airControlModifier c0 < 1
       ∧ PlayerController.moveSpeed c0 * PlayerController.airControlModifier c0 = 2.5).
Proof.
  intros frame. split; [|split].
  - apply update_every_move. reflexivity.
  - intros Hms Hacm Hair. apply update_every_move. intros _.
    cbn [PlayerController.self PlayerController.pawn]. rewrite Hair, Hms, Hacm. lra.
  - intros w. eexists. split; [apply new_PlayerController_fields|].
    cbn [PlayerController.moveSpeed PlayerController.airControlModifier].
    repeat split; lra.
Qed.

Lemma C5_witness :
  every_move (λ _ speed _, speed = 2.5)
    (PlayerController.calls
       (PlayerController.update 0.016
          {| PlayerController.self := Examples.forward_only;
             PlayerController.pawn := ExamplePawn.airborne |})).
Proof.
  apply (C5_commanded_speed Examples.forward_only ExamplePawn.airborne 0.016);
    reflexivity.
Defined.

(** ** Elapsed time *)

(** C7. Every move command issued by [update(dt)] carries the [dt] that
    was given to [update]; hence in [update(0)], whatever flags are set,
    a move command carries elapsed time 0 and the displacement
    speed * dt it stands for is zero. *)
Theorem C7_update_passes_dt_through
    {P H : Type} `{!Player.ops P H} (c : PlayerController.t) (p : P) (dt : number) :
  let s := {| PlayerController.self := c; PlayerController.pawn := p |} in
  every_move (λ _ _ t, t = dt) (PlayerController.calls (PlayerController.update dt s))
  ∧ every_move
      (λ d speed t, t = 0 ∧ speed * t = 0 ∧ Vector3D.length d * (speed * t) = 0)
      (PlayerController.calls (PlayerController.update 0 s))
  ∧ count is_move (PlayerController.calls (PlayerController.update 0 s)) =
      (if PlayerController.has_input
            (PlayerController.accumulate (PlayerController.inputState c))
       then 1 else 0)%nat.
Proof.
  intros s. split; [|split].
  - apply update_every_move. reflexivity.
  - apply update_every_move. intros _. repeat split; lra.
  - apply update_count_move.
Qed.

(** ** Normalization is guarded *)

(** C10. In every call of [update], over any run of frames, [normalize]
    is called only on an accumulated direction with [x ≠ 0] or [z ≠ 0],
    whose length is therefore not zero: the resolver never normalizes a
    zero-length vector, in any input state. *)
Theorem C10_normalize_never_sees_zero_vector
    {P H : Type} `{!Player.ops P H} (c : PlayerController.t) (p : P) (dts : list number) :
  let s := {| PlayerController.self := c; PlayerController.pawn := p |} in
  every_normalize
    (λ v, (Vector3D.x v ≠ 0 ∨ Vector3D.z v ≠ 0) ∧ Vector3D.length v ≠ 0)
    (PlayerController.calls (PlayerController.run_frames dts s))
  ∧ (∀ dt : number,
       every_normalize
         (λ v, v = PlayerController.accumulate (PlayerController.inputState c)
               ∧ (Vector3D.x v ≠ 0 ∨ Vector3D.z v ≠ 0) ∧ Vector3D.length v ≠ 0)
         (PlayerController.calls (PlayerController.update dt s))
       ∧ count is_normalize (PlayerController.calls (PlayerController.update dt s)) =
           count is_move (PlayerController.calls (PlayerController.update dt s))).
Proof.
  intros s. split; [apply run_frames_every_normalize|].
  intros dt. split.
  - apply update_every_normalize. intros Hin. split; [reflexivity|]. split.
    + by apply has_input_true.
    + by apply has_input_length.
  - frame_cases; reflexivity.
Qed.

(** ** Key handlers *)

(** Decide a key code against the labels of the [switch]. *)
Ltac case_code k :=
  repeat match goal with
         | |- context [bool_decide (k = ?label)] =>
             destruct (decide (k = label)) as [->|?];
             [vm_compute; reflexivity
             |rewrite (bool_decide_eq_false_2 (k = label)) by assumption]
         | |- context [decide (k = ?label)] =>
             rewrite (decide_False (P := k = label)) by assumption
         end.

(** [onKeyDown] sets the flag the table binds to the code, and nothing
    else; an unbound code changes nothing. *)
Lemma onKeyDown_binding e c :
  PlayerController.onKeyDown e c =
  match Spec.binding (code e) with
  | Some a => PlayerController.set_inputState (Spec.set_flag a true) c
  | None => c
  end.
Proof.
  destruct e as [k]. unfold PlayerController.onKeyDown, PlayerController.is_case,
    Spec.binding, Spec.table. cbn [code Spec.assoc].
  case_code k. reflexivity.
Qed.

Lemma onKeyUp_binding e c :
  PlayerController.onKeyUp e c =
  match Spec.binding (code e) with
  | Some a => PlayerController.set_inputState (Spec.set_flag a false) c
  | None => c
  end.
Proof.
  destruct e as [k]. unfold PlayerController.onKeyUp, PlayerController.is_case,
    Spec.binding, Spec.table. cbn [code Spec.assoc].
  case_code k. reflexivity.
Qed.

Lemma flag_set_flag_same a b i : Spec.flag a (Spec.set_flag a b i) = b.
Proof. by destruct a. Qed.

Lemma flag_set_flag_other a a' b i :
  a ≠ a' → Spec.flag a' (Spec.set_flag a b i) = Spec.flag a' i.
Proof. by destruct a, a', i. Qed.

Lemma set_flag_twice a b b' i :
  Spec.set_flag a b (Spec.set_flag a b' i) = Spec.set_flag a b i.
Proof. by destruct a. Qed.

(** A flag that already has the value is left as it is. *)
Lemma set_flag_same a i : Spec.set_flag a (Spec.flag a i) i = i.
Proof. by destruct a, i. Qed.

(** C6. For every key event, the key-down handler sets and the key-up
    handler clears exactly the flag the fixed table binds to the key code
    (KeyW/ArrowUp forward, KeyS/ArrowDown backward, KeyA/ArrowLeft left,
    KeyD/ArrowRight right, Space jump, Mouse0/Enter shoot), whatever the
    state; a repeated down or up event changes nothing more, a down
    event on a set flag and an up event on a cleared flag change nothing,
    an unbound code leaves the whole controller as it is, and a down/up
    pair on one key leaves every other flag as it was. *)
Theorem C6_key_handlers_set_and_clear_the_bound_flag
    (e : KeyboardEvent) (c : PlayerController.t) :
  let down := PlayerController.onKeyDown e in
  let up := PlayerController.onKeyUp e in
  let flags c' := PlayerController.inputState c' in
  (Spec.table =
     [("KeyW", Spec.Forward); ("ArrowUp", Spec.Forward);
      ("KeyS", Spec.Backward); ("ArrowDown", Spec.Backward);
      ("KeyA", Spec.Left); ("ArrowLeft", Spec.Left);
      ("KeyD", Spec.Right); ("ArrowRight", Spec.Right);
      ("Space", Spec.Jump);
      ("Mouse0", Spec.Shoot); ("Enter", Spec.Shoot)]%string)
  ∧ (∀ a, Spec.binding (code e) = Some a →
       down c = PlayerController.set_inputState (Spec.set_flag a true) c
       ∧ up c = PlayerController.set_inputState (Spec.set_flag a false) c
       ∧ Spec.flag a (flags (down c)) = true
       ∧ Spec.flag a (flags (up c)) = false
       ∧ (Spec.flag a (flags c) = true → down c = c)
       ∧ (Spec.flag a (flags c) = false → up c = c)
       ∧ Spec.flag a (flags (up (down c))) = false
       ∧ (∀ a', a' ≠ a →
            Spec.flag a' (flags (down c)) = Spec.flag a' (flags c)
            ∧ Spec.flag a' (flags (up c)) = Spec.flag a' (flags c)
            ∧ Spec.flag a' (flags (up (down c))) = Spec.flag a' (flags c)))
  ∧ (Spec.binding (code e) = None → down c = c ∧ up c = c)
  ∧ down (down c) = down c
  ∧ up (up c) = up c
  ∧ PlayerController.moveSpeed (down c) = PlayerController.moveSpeed c
  ∧ PlayerController.moveSpeed (up c) = PlayerController.moveSpeed c
  ∧ PlayerController.airControlModifier (down c) = PlayerController.airControlModifier c
  ∧ PlayerController.airControlModifier (up c) = PlayerController.airControlModifier c.
Proof.
  intros down up flags. unfold down, up, flags.
  split; [reflexivity|].
  split.
  { intros a Ha. rewrite !onKeyUp_binding, !onKeyDown_binding, Ha.
    destruct c as [ms acm i kd ku]. unfold PlayerController.set_inputState.
    cbn [PlayerController.inputState PlayerController.moveSpeed
         PlayerController.airControlModifier PlayerController.onKeyDownHandler
         PlayerController.onKeyUpHandler].
    rewrite set_flag_twice, !flag_set_flag_same.
    repeat split.
    - intros <-. by rewrite set_flag_same.
    - intros <-. by rewrite set_flag_same.
    - by apply flag_set_flag_other.
    - by apply flag_set_flag_other.
    - by apply flag_set_flag_other. }
  split.
  { intros Hnone. by rewrite onKeyUp_binding, onKeyDown_binding, Hnone. }
  rewrite !onKeyUp_binding, !onKeyDown_binding.
  destruct (Spec.binding (code e)) as [a|]; [|done].
  destruct c as [ms acm i kd ku]. unfold PlayerController.set_inputState.
  cbn [PlayerController.inputState PlayerController.moveSpeed
       PlayerController.airControlModifier PlayerController.onKeyDownHandler
       PlayerController.onKeyUpHandler].
  by rewrite !set_flag_twice.
Qed.

Lemma C6_witness :
  let c := Examples.holding false true false false true false in
  let w := {| code := "KeyW" |} in
  Spec.flag Spec.Forward (PlayerController.inputState (PlayerController.onKeyDown w c)) = true
  ∧ PlayerController.onKeyUp w (PlayerController.onKeyDown w c) = c
  ∧ PlayerController.onKeyDown {| code := "keyw" |} c = c.
Proof.
  intros c w.
  pose proof (C6_key_handlers_set_and_clear_the_bound_flag w c) as (_ & Hw & _).
  pose proof (C6_key_handlers_set_and_clear_the_bound_flag {| code := "keyw" |} c)
    as (_ & _ & Hnone & _).
  specialize (Hw Spec.Forward eq_refl) as (_ & _ & Hset & _).
  specialize (Hnone eq_refl) as [Hdown _].
  split; [exact Hset|]. split; [|exact Hdown].
  vm_compute. reflexivity.
Defined.

(** ** Manual setters *)

Lemma manual_sets m c :
  manual m c = PlayerController.set_inputState (Spec.set_flag (manual_action m) true) c.
Proof. by destruct m. Qed.

Lemma manual_calls_cons m ms c :
  manual_calls (m :: ms) c = manual_calls ms (manual m c).
Proof. reflexivity. Qed.

(** No sequence of manual calls brings a set flag back to false. *)
Lemma manual_calls_keep_flags ms : ∀ c a,
  Spec.flag a (PlayerController.inputState c) = true →
  Spec.flag a (PlayerController.inputState (manual_calls ms c)) = true.
Proof.
  induction ms as [|m ms IH]; intros c a Ha; [exact Ha|].
  rewrite manual_calls_cons. apply IH. rewrite manual_sets.
  destruct c as [ms' acm i kd ku]. cbn in *.
  destruct (decide (manual_action m = a)) as [<-|Hne].
  - apply flag_set_flag_same.
  - by rewrite flag_set_flag_other.
Qed.

Lemma manual_calls_fields ms : ∀ c,
  PlayerController.moveSpeed (manual_calls ms c) = PlayerController.moveSpeed c
  ∧ PlayerController.airControlModifier (manual_calls ms c) =
      PlayerController.airControlModifier c
  ∧ PlayerController.onKeyDownHandler (manual_calls ms c) =
      PlayerController.onKeyDownHandler c
  ∧ PlayerController.onKeyUpHandler (manual_calls ms c) =
      PlayerController.onKeyUpHandler c.
Proof.
  induction ms as [|m ms IH]; intros c; [done|].
  rewrite manual_calls_cons. destruct (IH (manual m c)) as (-> & -> & -> & ->).
  by destruct m.
Qed.

(** C8. [moveForward()], [moveBackward()], [moveLeft()] and
    [moveRight()] each set their own held flag to true and change no
    other flag and no other field of the controller; no sequence of them
    clears a flag, whereas on the keyboard path the up event clears what
    the down event set. *)
Theorem C8_manual_setters_only_set
    (m : ManualCall) (c : PlayerController.t) :
  let flags c' := PlayerController.inputState c' in
  Spec.flag (manual_action m) (flags (manual m c)) = true
  ∧ (∀ a, a ≠ manual_action m →
       Spec.flag a (flags (manual m c)) = Spec.flag a (flags c))
  ∧ PlayerController.moveSpeed (manual m c) = PlayerController.moveSpeed c
  ∧ PlayerController.airControlModifier (manual m c) =
      PlayerController.airControlModifier c
  ∧ PlayerController.onKeyDownHandler (manual m c) = PlayerController.onKeyDownHandler c
  ∧ PlayerController.onKeyUpHandler (manual m c) = PlayerController.onKeyUpHandler c
  ∧ (∀ (ms : list ManualCall) a,
       Spec.flag a (flags c) = true → Spec.flag a (flags (manual_calls ms c)) = true)
  ∧ (∀ ms : list ManualCall,
       Spec.flag (manual_action m) (flags (manual_calls ms (manual m c))) = true)
  ∧ (∀ e a, Spec.binding (code e) = Some a →
       Spec.flag a (flags (PlayerController.onKeyUp e (PlayerController.onKeyDown e c)))
       = false).
Proof.
  intros flags. unfold flags. rewrite manual_sets.
  destruct c as [ms' acm i kd ku]. unfold PlayerController.set_inputState.
  cbn [PlayerController.inputState PlayerController.moveSpeed
       PlayerController.airControlModifier PlayerController.onKeyDownHandler
       PlayerController.onKeyUpHandler].
  split; [apply flag_set_flag_same|].
  split; [intros a Ha; by apply flag_set_flag_other|].
  do 4 (split; [reflexivity|]).
  split; [intros ms a Ha; by apply manual_calls_keep_flags|].
  split; [intros ms; apply manual_calls_keep_flags, flag_set_flag_same|].
  intros e a Ha. rewrite onKeyUp_binding, onKeyDown_binding, Ha.
  apply flag_set_flag_same.
Qed.

Lemma C8_witness :
  let c := PlayerController.moveForward Examples.idle in
  PlayerInputState.forward
    (PlayerController.inputState
       (manual_calls [MoveForward; MoveBackward; MoveLeft; MoveRight; MoveForward] c))
  = true
  ∧ PlayerInputState.jump (PlayerController.inputState c) = false.
Proof.
  intros c.
  pose proof (C8_manual_setters_only_set MoveForward Examples.idle)
    as (Hset & Hother & _ & _ & _ & _ & _ & Hkeep & _).
  split.
  - exact (Hkeep [MoveForward; MoveBackward; MoveLeft; MoveRight; MoveForward]).
  - exact (Hother Spec.Jump ltac:(discriminate)).
Defined.

(** ** The listener list *)

Lemma removeEventListener_elem type callback (w : Window.t) l :
  l ∈ Window.removeEventListener type callback w → l ∈ w.
Proof.
  induction w as [|l0 w IH]; cbn [Window.removeEventListener]; [done|].
  case_decide; rewrite !elem_of_cons; [tauto|].
  intros [->|Hin]; [by left | right; by apply IH].
Qed.

Lemma removeEventListener_NoDup type callback (w : Window.t) :
  NoDup w → NoDup (Window.removeEventListener type callback w).
Proof.
  induction w as [|l0 w IH]; cbn [Window.removeEventListener]; [done|].
  rewrite NoDup_cons. intros [Hnotin Hnd].
  case_decide; [done|].
  apply NoDup_cons. split; [|by apply IH].
  intros Hin. by apply Hnotin, (removeEventListener_elem type callback).
Qed.

(** In a list without repetition, removal leaves no listener with that
    type and callback behind. *)
Lemma removeEventListener_gone type callback (w : Window.t) :
  NoDup w → Build_Listener type callback ∉ Window.removeEventListener type callback w.
Proof.
  induction w as [|l0 w IH]; cbn [Window.removeEventListener].
  - intros _. apply not_elem_of_nil.
  - rewrite NoDup_cons. intros [Hnotin Hnd].
    case_decide as Hl0; [by subst l0|].
    rewrite elem_of_cons. intros [Heq|Hin]; [by apply Hl0 | by apply IH in Hin].
Qed.

Lemma removeEventListener_other type callback (w : Window.t) l :
  l ≠ Build_Listener type callback → l ∈ w →
  l ∈ Window.removeEventListener type callback w.
Proof.
  intros Hne. induction w as [|l0 w IH]; cbn [Window.removeEventListener]; [done|].
  rewrite elem_of_cons. intros [->|Hin].
  - rewrite decide_False by done. by left.
  - case_decide; [done|]. right. by apply IH.
Qed.

Lemma addEventListener_elem type callback (w : Window.t) l :
  l ∈ Window.addEventListener type callback w ↔ l = Build_Listener type callback ∨ l ∈ w.
Proof.
  unfold Window.addEventListener. case_decide as Hin.
  - split; [by right|]. by intros [->|?].
  - rewrite elem_of_app, list_elem_of_singleton. tauto.
Qed.

Lemma addEventListener_NoDup type callback (w : Window.t) :
  NoDup w → NoDup (Window.addEventListener type callback w).
Proof.
  intros Hnd. unfold Window.addEventListener. case_decide as Hin; [done|].
  apply NoDup_app. split; [done|]. split.
  - intros x Hx. rewrite list_elem_of_singleton. by intros ->.
  - apply NoDup_singleton.
Qed.

(** ** Delivery of key events *)

Lemma call_other f e (h : gmap loc PlayerController.t) this :
  fn_this f ≠ this → call f e h !! this = h !! this.
Proof.
  intros Hne. unfold call. destruct (h !! fn_this f); [|done].
  by rewrite lookup_insert_ne.
Qed.

(** The handlers keep the function objects stored in the controller. *)
Lemma onKeyDown_handlers e c :
  PlayerController.onKeyDownHandler (PlayerController.onKeyDown e c) =
    PlayerController.onKeyDownHandler c
  ∧ PlayerController.onKeyUpHandler (PlayerController.onKeyDown e c) =
    PlayerController.onKeyUpHandler c.
Proof. rewrite onKeyDown_binding. by destruct (Spec.binding _). Qed.

Lemma onKeyUp_handlers e c :
  PlayerController.onKeyDownHandler (PlayerController.onKeyUp e c) =
    PlayerController.onKeyDownHandler c
  ∧ PlayerController.onKeyUpHandler (PlayerController.onKeyUp e c) =
    PlayerController.onKeyUpHandler c.
Proof. rewrite onKeyUp_binding. by destruct (Spec.binding _). Qed.

(** A call changes at most the flags of the object the handler is bound
    to: every object keeps its two function objects. *)
Lemma call_handlers f e (h : gmap loc PlayerController.t) this c :
  h !! this = Some c →
  ∃ c', call f e h !! this = Some c'
        ∧ PlayerController.onKeyDownHandler c' = PlayerController.onKeyDownHandler c
        ∧ PlayerController.onKeyUpHandler c' = PlayerController.onKeyUpHandler c.
Proof.
  intros Hc. unfold call.
  destruct (h !! fn_this f) as [c0|] eqn:Hf; [|by exists c].
  destruct (decide (fn_this f = this)) as [Heq|Hne].
  - rewrite Heq in *. rewrite lookup_insert_eq. simplify_eq.
    eexists. split; [done|].
    destruct (fn_method f); [apply onKeyDown_handlers | apply onKeyUp_handlers].
  - rewrite lookup_insert_ne by done. by exists c.
Qed.

(** Delivery to listeners none of which is bound to [this] leaves the
    object at [this] alone. *)
Lemma deliver_detached type e (ls : list Listener) this :
  (∀ l, l ∈ ls → fn_this (l_callback l) ≠ this) →
  ∀ h : gmap loc PlayerController.t,
    foldl (λ h l, if decide (l_type l = type) then call (l_callback l) e h else h) h ls
      !! this = h !! this.
Proof.
  induction ls as [|l ls IH]; intros Hdet h; [done|].
  cbn [foldl]. rewrite IH.
  - case_decide; [|done]. apply call_other, Hdet. by left.
  - intros l' Hl'. apply Hdet. by right.
Qed.

Lemma dispatchEvent_window type e w : window (dispatchEvent type e w) = window w.
Proof. reflexivity. Qed.

Lemma dispatchAll_window es : ∀ w, window (dispatchAll es w) = window w.
Proof.
  induction es as [|[type e] es IH]; intros w; [done|].
  unfold dispatchAll in *. cbn [foldl]. by rewrite IH.
Qed.

Lemma dispatchAll_detached es this : ∀ w,
  (∀ l, l ∈ window w → fn_this (l_callback l) ≠ this) →
  heap (dispatchAll es w) !! this = heap w !! this.
Proof.
  induction es as [|[type e] es IH]; intros w Hdet; [done|].
  unfold dispatchAll in *. cbn [foldl]. rewrite IH.
  - cbn [dispatchEvent heap fst snd]. by apply deliver_detached.
  - by rewrite dispatchEvent_window.
Qed.

(** ** Well-formed worlds *)

Lemma well_formed_empty : well_formed empty_world.
Proof. split; [apply NoDup_nil_2 | constructor]. Qed.

(** After [destroy], no listener on the window is bound to the
    destroyed controller. *)
Lemma destroy_detaches w this c :
  well_formed w → heap w !! this = Some c →
  ∀ l, l ∈ window (destroy this w) → fn_this (l_callback l) ≠ this.
Proof.
  intros [Hnd Hown] Hc l. unfold destroy. rewrite Hc. cbn [window].
  unfold PlayerController.destroy, PlayerController.stopListening.
  intros Hin Hthis.
  assert (l ∈ window w) as Hl by by do 2 apply removeEventListener_elem in Hin.
  rewrite Forall_forall in Hown. destruct (Hown l Hl) as (c' & Hc' & Hcases).
  rewrite Hthis, Hc in Hc'. simplify_eq.
  destruct Hcases as [-> | ->].
  - apply removeEventListener_elem in Hin.
    by apply removeEventListener_gone in Hin.
  - apply removeEventListener_gone in Hin; [done|].
    by apply removeEventListener_NoDup.
Qed.

Lemma well_formed_destroy w this : well_formed w → well_formed (destroy this w).
Proof.
  intros [Hnd Hown]. unfold destroy. destruct (heap w !! this) as [c|]; [|done].
  split; cbn [window heap].
  - by do 2 apply removeEventListener_NoDup.
  - rewrite Forall_forall in *. intros l Hin. apply Hown.
    by do 2 apply removeEventListener_elem in Hin.
Qed.

Lemma well_formed_new w : well_formed w → well_formed (new_PlayerController w).2.
Proof.
  intros [Hnd Hown]. unfold new_PlayerController. cbn [snd].
  set (this := fresh (dom (heap w))).
  assert (heap w !! this = None) as Hfresh by apply not_elem_of_dom, is_fresh.
  split; cbn [window heap].
  - unfold PlayerController.startListening. by do 2 apply addEventListener_NoDup.
  - rewrite Forall_forall in *. intros l.
    unfold PlayerController.startListening.
    cbn [PlayerController.onKeyDownHandler PlayerController.onKeyUpHandler].
    rewrite !addEventListener_elem. intros [->|[->|Hin]].
    + eexists. cbn [l_callback fn_this]. rewrite lookup_insert_eq. split; [done|]. by right.
    + eexists. cbn [l_callback fn_this]. rewrite lookup_insert_eq. split; [done|]. by left.
    + destruct (Hown l Hin) as (c' & Hc' & Hcases). exists c'. split; [|done].
      rewrite lookup_insert_ne; [done|]. intros Heq. rewrite <- Heq in Hc'. congruence.
Qed.

Lemma well_formed_dispatchEvent type e w :
  well_formed w → well_formed (dispatchEvent type e w).
Proof.
  intros [Hnd Hown]. split; [done|]. cbn [dispatchEvent window heap].
  assert (∀ (ls : list Listener) (h : gmap loc PlayerController.t) l,
            owned h l →
            owned (foldl (λ h l, if decide (l_type l = type)
                                 then call (l_callback l) e h else h) h ls) l) as Hkeep.
  { induction ls as [|l0 ls IH]; intros h l Hl; [done|].
    cbn [foldl]. apply IH. case_decide; [|done].
    destruct Hl as (c & Hc & Hcases).
    destruct (call_handlers (l_callback l0) e h _ c Hc) as (c' & Hc' & Hkd & Hku).
    exists c'. split; [done|]. by rewrite Hkd, Hku. }
  rewrite Forall_forall in *. intros l Hin. by apply Hkeep, Hown.
Qed.

Lemma well_formed_dispatchAll es : ∀ w, well_formed w → well_formed (dispatchAll es w).
Proof.
  induction es as [|[type e] es IH]; intros w Hwf; [done|].
  unfold dispatchAll in *. cbn [foldl]. by apply IH, well_formed_dispatchEvent.
Qed.

Lemma manual_handlers m c :
  PlayerController.onKeyDownHandler (manual m c) = PlayerController.onKeyDownHandler c
  ∧ PlayerController.onKeyUpHandler (manual m c) = PlayerController.onKeyUpHandler c.
Proof. by destruct m. Qed.

Lemma well_formed_step w w' : step w w' → well_formed w → well_formed w'.
Proof.
  destruct 1 as [w|this w|type e w|this m w]; intros Hwf.
  - by apply well_formed_new.
  - by apply well_formed_destroy.
  - by apply well_formed_dispatchEvent.
  - destruct Hwf as [Hnd Hown]. split; [done|]. cbn [window heap].
    rewrite Forall_forall in *. intros l Hin.
    destruct (Hown l Hin) as (c & Hc & Hcases).
    destruct (decide (this = fn_this (l_callback l))) as [->|Hne].
    + exists (manual m c). rewrite lookup_alter_eq, Hc. split; [done|].
      destruct (manual_handlers m c) as [-> ->]. exact Hcases.
    + exists c. by rewrite lookup_alter_ne.
Qed.

(** Every world a program can reach is well formed. *)
Lemma reachable_well_formed w : reachable w → well_formed w.
Proof.
  unfold reachable. revert w. apply rtc_ind_r.
  - apply well_formed_empty.
  - intros w w' _ Hstep Hwf. by apply (well_formed_step w w').
Qed.

(** ** Listening and teardown *)

(** While a controller listens, key events reach it: in a world of two
    controllers, the example keys leave jump and shoot held in both. *)
Lemma listening_controllers_follow_the_keys :
  PlayerController.inputState <$>
    (heap (dispatchAll Examples.keys Examples.two_controllers) !! Examples.first) =
    Some (PlayerInputState.Build false false false false true true)
  ∧ PlayerController.inputState <$>
      (heap (dispatchAll Examples.keys Examples.two_controllers) !! Examples.second) =
    Some (PlayerInputState.Build false false false false true true).
Proof. split; vm_compute; reflexivity. Qed.

(** Destroying the first controller leaves the second one listening. *)
Lemma destroy_leaves_the_others_listening :
  PlayerController.inputState <$>
    (heap (dispatchAll Examples.keys (destroy Examples.first Examples.two_controllers))
       !! Examples.second) =
  Some (PlayerInputState.Build false false false false true true).
Proof. vm_compute; reflexivity. Qed.

(** C9. In a well-formed world (every reachable world is one), after
    [destroy()] the controller's two listeners are off the window, no
    listener left there is bound to the controller, and whatever
    key-down and key-up events follow, the controller object, hence
    every InputState flag, stays as it was at [destroy()]; so a frame
    update afterwards is the update of the state at [destroy()] and
    issues no command caused by the later events. *)
Theorem C9_destroy_detaches_the_key_handlers
    {P H : Type} `{!Player.ops P H}
    (w : World) (this : loc) (c : PlayerController.t)
    (es : list (EventType * KeyboardEvent)) (p : P) (dt : number) :
  well_formed w →
  heap w !! this = Some c →
  let w' := destroy this w in
  (Build_Listener keydown (PlayerController.onKeyDownHandler c) ∉ window w')
  ∧ (Build_Listener keyup (PlayerController.onKeyUpHandler c) ∉ window w')
  ∧ (∀ l, l ∈ window w' → fn_this (l_callback l) ≠ this)
  ∧ heap (dispatchAll es w') !! this = Some c
  ∧ (∀ c', heap (dispatchAll es w') !! this = Some c' →
       PlayerController.update dt
         {| PlayerController.self := c'; PlayerController.pawn := p |} =
       PlayerController.update dt
         {| PlayerController.self := c; PlayerController.pawn := p |}).
Proof.
  intros Hwf Hc w'.
  assert (heap w' !! this = Some c) as Hc'.
  { unfold w', destroy. by rewrite Hc. }
  assert (heap (dispatchAll es w') !! this = Some c) as Hafter.
  { rewrite dispatchAll_detached; [done|]. by apply (destroy_detaches w this c). }
  destruct Hwf as [Hnd Hown].
  split; [|split; [|split; [|split]]].
  - unfold w', destroy. rewrite Hc. cbn [window].
    unfold PlayerController.destroy, PlayerController.stopListening.
    intros Hin. apply removeEventListener_elem in Hin.
    by apply removeEventListener_gone in Hin.
  - unfold w', destroy. rewrite Hc. cbn [window].
    unfold PlayerController.destroy, PlayerController.stopListening.
    by apply removeEventListener_gone, removeEventListener_NoDup.
  - by apply (destroy_detaches w this c).
  - exact Hafter.
  - intros c' Hlookup. rewrite Hafter in Hlookup. by simplify_eq.
Qed.

Lemma C9_witness :
  PlayerController.inputState <$>
    (heap (dispatchAll Examples.keys (destroy Examples.first Examples.two_controllers))
       !! Examples.first)
  = Some PlayerInputState.initial.
Proof.
  pose proof (C9_destroy_detaches_the_key_handlers
                Examples.two_controllers Examples.first
                (PlayerController.Build 5.0 0.5 PlayerInputState.initial
                   (Bind 0 Examples.first OnKeyDown) (Bind 1 Examples.first OnKeyUp))
                Examples.keys ExamplePawn.standing 0.016
                (well_formed_new _ (well_formed_new _ well_formed_empty))
                eq_refl) as (_ & _ & _ & Hflags & _).
  rewrite Hflags. reflexivity.
Defined.

(** ** Frames of the example controllers *)

(** Everything held, pawn standing with rounds left: the axes cancel,
    the pawn is asked twice and both actions are commanded. *)
Example frame_all_held :
  PlayerController.calls
    (PlayerController.update 0.016
       {| PlayerController.self := Examples.all_held;
          PlayerController.pawn := ExamplePawn.standing |}) =
  [PawnCanJump; PawnJump; PawnCanShoot; PawnShoot].
Proof.
  unfold PlayerController.update, PlayerController.bind.
  rewrite handleMovement_idle; [reflexivity|].
  apply has_input_false. split; simpl; lra.
Qed.

(** Forward held, pawn in the air: one move along (0, 0, 1) at 2.5. *)
Example frame_forward_airborne :
  PlayerController.calls
    (PlayerController.update 0.016
       {| PlayerController.self := Examples.forward_only;
          PlayerController.pawn := ExamplePawn.airborne |}) =
  [VecNormalize (Vector3D.new 0 0 1); PawnIsOnGround;
   PawnMove (Vector3D.new 0 0 1) 2.5 0.016].
Proof.
  assert (PlayerController.accumulate (PlayerController.inputState Examples.forward_only)
          = Vector3D.new 0 0 1) as Hacc.
  { apply vector_eq; simpl; lra. }
  assert (Vector3D.length (Vector3D.new 0 0 1) = 1) as Hlen.
  { unfold Vector3D.length. simpl.
    replace (0 * 0 + 0 * 0 + 1 * 1) with 1 by lra. apply sqrt_1. }
  assert (Vector3D.normalize (Vector3D.new 0 0 1) = Vector3D.new 0 0 1) as Hnorm.
  { unfold Vector3D.normalize. rewrite Hlen. apply vector_eq; simpl; lra. }
  unfold PlayerController.update, PlayerController.bind.
  rewrite handleMovement_moving
    by (apply has_input_true; right; simpl; lra).
  cbn [PlayerController.calls PlayerController.final PlayerController.value
       PlayerController.self PlayerController.pawn].
  rewrite Hacc, Hnorm.
  replace (PlayerController.calls (PlayerController.handleActions _)) with (@nil Call)
    by reflexivity.
  cbn. repeat f_equal. lra.
Qed.

(** Forward and right held: both components of the direction are
    1 / sqrt 2. *)
Example intent_forward_right :
  PlayerController.movementIntent (PlayerController.inputState Examples.forward_right) =
  Vector3D.new (1 / sqrt 2) 0 (1 / sqrt 2).
Proof.
  unfold PlayerController.movementIntent.
  replace (PlayerController.has_input _) with true
    by (symmetry; apply has_input_true; right; simpl; lra).
  assert (PlayerController.accumulate (PlayerController.inputState Examples.forward_right)
          = Vector3D.new 1 0 1) as ->.
  { apply vector_eq; simpl; lra. }
  unfold Vector3D.normalize, Vector3D.length. simpl.
  replace (1 * 1 + 0 * 0 + 1 * 1) with 2 by lra.
  apply vector_eq; simpl; [reflexivity | | reflexivity].
  unfold Rdiv. apply Rmult_0_l.
Qed.

(** Forward held and no time elapsed: the move command is issued, and
    the example pawn, which displaces by direction * speed * dt, stays
    where it is. *)
Example frame_zero_dt_does_not_displace :
  ExamplePawn.position
    (PlayerController.pawn
       (PlayerController.final
          (PlayerController.update 0
             {| PlayerController.self := Examples.forward_only;
                PlayerController.pawn := ExamplePawn.standing |}))) =
  ExamplePawn.position ExamplePawn.standing.
Proof.
  unfold PlayerController.update, PlayerController.bind.
  rewrite handleMovement_moving
    by (apply has_input_true; right; simpl; lra).
  cbn [PlayerController.calls PlayerController.final PlayerController.value
       PlayerController.self PlayerController.pawn].
  apply vector_eq; simpl; lra.
Qed.

(** * Further properties *)

(** ** Histories of key events *)

Lemma handle_binding ev c :
  handle ev c =
  match Spec.binding (code ev.2) with
  | Some a =>
      PlayerController.set_inputState (Spec.set_flag a (bool_decide (ev.1 = keydown))) c
  | None => c
  end.
Proof.
  destruct ev as [[] e]; unfold handle; cbn [fst snd].
  - apply onKeyDown_binding.
  - apply onKeyUp_binding.
Qed.

Lemma handle_all_cons ev evs c : handle_all (ev :: evs) c = handle_all evs (handle ev c).
Proof. reflexivity. Qed.

Lemma handle_all_app evs evs' c :
  handle_all (evs ++ evs') c = handle_all evs' (handle_all evs c).
Proof. apply foldl_app. Qed.

(** Two input states with the same six flags are the same. *)
Lemma flags_ext i i' : (∀ a, Spec.flag a i = Spec.flag a i') → i = i'.
Proof.
  intros E. destruct i, i'.
  pose proof (E Spec.Forward). pose proof (E Spec.Backward).
  pose proof (E Spec.Left). pose proof (E Spec.Right).
  pose proof (E Spec.Jump). pose proof (E Spec.Shoot).
  simpl in *. congruence.
Qed.

Lemma controller_ext c c' :
  PlayerController.moveSpeed c = PlayerController.moveSpeed c' →
  PlayerController.airControlModifier c = PlayerController.airControlModifier c' →
  PlayerController.inputState c = PlayerController.inputState c' →
  PlayerController.onKeyDownHandler c = PlayerController.onKeyDownHandler c' →
  PlayerController.onKeyUpHandler c = PlayerController.onKeyUpHandler c' →
  c = c'.
Proof. destruct c, c'; simpl; congruence. Qed.

Lemma handle_fields ev c :
  PlayerController.moveSpeed (handle ev c) = PlayerController.moveSpeed c
  ∧ PlayerController.airControlModifier (handle ev c) =
      PlayerController.airControlModifier c
  ∧ PlayerController.onKeyDownHandler (handle ev c) = PlayerController.onKeyDownHandler c
  ∧ PlayerController.onKeyUpHandler (handle ev c) = PlayerController.onKeyUpHandler c.
Proof. rewrite handle_binding. by destruct (Spec.binding _). Qed.

Lemma handle_all_fields evs : ∀ c,
  PlayerController.moveSpeed (handle_all evs c) = PlayerController.moveSpeed c
  ∧ PlayerController.airControlModifier (handle_all evs c) =
      PlayerController.airControlModifier c
  ∧ PlayerController.onKeyDownHandler (handle_all evs c) =
      PlayerController.onKeyDownHandler c
  ∧ PlayerController.onKeyUpHandler (handle_all evs c) = PlayerController.onKeyUpHandler c.
Proof.
  induction evs as [|ev evs IH]; intros c; [done|].
  rewrite handle_all_cons. destruct (IH (handle ev c)) as (-> & -> & -> & ->).
  apply handle_fields.
Qed.

Lemma handle_flag ev c a :
  Spec.flag a (PlayerController.inputState (handle ev c)) =
  if decide (Spec.binding (code ev.2) = Some a)
  then bool_decide (ev.1 = keydown)
  else Spec.flag a (PlayerController.inputState c).
Proof.
  rewrite handle_binding. destruct (Spec.binding (code ev.2)) as [a'|].
  - destruct c as [ms acm i kd ku]. cbn [PlayerController.set_inputState
      PlayerController.inputState].
    case_decide as Ha.
    + simplify_eq. apply flag_set_flag_same.
    + apply flag_set_flag_other. congruence.
  - by rewrite decide_False.
Qed.

(** X1. After any history of key events, a flag is what the most
    recent event on a key bound to its action said (held after a press,
    not held after a release), or what it was before when the history
    has no event for that action; speeds and handlers are as before. *)
Theorem key_history_last_event_wins
    (evs : list (EventType * KeyboardEvent)) (c : PlayerController.t) (a : Spec.Action) :
  Spec.flag a (PlayerController.inputState (handle_all evs c)) =
    default (Spec.flag a (PlayerController.inputState c)) (latest a evs)
  ∧ PlayerController.moveSpeed (handle_all evs c) = PlayerController.moveSpeed c
  ∧ PlayerController.airControlModifier (handle_all evs c) =
      PlayerController.airControlModifier c.
Proof.
  split; [|by destruct (handle_all_fields evs c) as (-> & -> & _)].
  revert c. induction evs as [|ev evs IH]; intros c; [done|].
  rewrite handle_all_cons, IH. cbn [latest].
  destruct (latest a evs) as [b|]; [done|].
  rewrite handle_flag. by case_decide.
Qed.

(** X2. A history whose most recent event for every action agrees with
    the flag as it already stands leaves the controller object exactly
    as it was, so the next frame is the frame that would have run
    without the history: presses and releases between two frames are
    not remembered. *)
Theorem key_history_without_net_change_is_forgotten
    {P H : Type} `{!Player.ops P H}
    (evs : list (EventType * KeyboardEvent)) (c : PlayerController.t)
    (p : P) (dt : number) :
  (∀ a, default (Spec.flag a (PlayerController.inputState c)) (latest a evs) =
        Spec.flag a (PlayerController.inputState c)) →
  handle_all evs c = c
  ∧ PlayerController.update dt
      {| PlayerController.self := handle_all evs c; PlayerController.pawn := p |} =
    PlayerController.update dt
      {| PlayerController.self := c; PlayerController.pawn := p |}.
Proof.
  intros Hnet.
  assert (handle_all evs c = c) as ->; [|done].
  destruct (handle_all_fields evs c) as (Hms & Hacm & Hkd & Hku).
  apply controller_ext; try done.
  apply flags_ext. intros a.
  destruct (key_history_last_event_wins evs c a) as [-> _]. apply Hnet.
Qed.

Lemma key_history_without_net_change_is_forgotten_witness :
  handle_all [(keydown, {| code := "Space" |}); (keyup, {| code := "Space" |});
              (keydown, {| code := "KeyQ" |})]
    Examples.forward_only = Examples.forward_only.
Proof.
  apply (key_history_without_net_change_is_forgotten
           [(keydown, {| code := "Space" |}); (keyup, {| code := "Space" |});
            (keydown, {| code := "KeyQ" |})]
           Examples.forward_only ExamplePawn.standing 0.016).
  intros []; reflexivity.
Defined.

(** X3. Events on keys bound to different actions, or of which one is
    bound to none, can be handled in either order with the same
    result. *)
Theorem key_events_of_different_actions_commute
    (ev1 ev2 : EventType * KeyboardEvent) (c : PlayerController.t) :
  Spec.binding (code ev1.2) ≠ Spec.binding (code ev2.2) →
  handle ev1 (handle ev2 c) = handle ev2 (handle ev1 c).
Proof.
  intros Hne. rewrite !handle_binding.
  destruct (Spec.binding (code ev1.2)) as [a1|], (Spec.binding (code ev2.2)) as [a2|];
    try done.
  destruct c as [ms acm [f b l r j s] kd ku].
  destruct a1, a2; try done.
Qed.

Lemma key_events_of_different_actions_commute_witness :
  handle (keyup, {| code := "KeyA" |}) (handle (keydown, {| code := "Space" |}) Examples.all_held)
  = handle (keydown, {| code := "Space" |})
      (handle (keyup, {| code := "KeyA" |}) Examples.all_held).
Proof.
  apply (key_events_of_different_actions_commute
           (keyup, {| code := "KeyA" |}) (keydown, {| code := "Space" |})
           Examples.all_held).
  vm_compute. discriminate.
Defined.

(** X4. The handlers see a key only through the action it is bound to:
    two keys bound to the same action share one flag, so releasing
    either of them clears the flag even while the other is still
    pressed. *)
Theorem keys_of_one_action_share_one_flag
    (e1 e2 : KeyboardEvent) (a : Spec.Action) (c : PlayerController.t) :
  Spec.binding (code e1) = Some a →
  Spec.binding (code e2) = Some a →
  PlayerController.onKeyDown e1 c = PlayerController.onKeyDown e2 c
  ∧ PlayerController.onKeyUp e1 c = PlayerController.onKeyUp e2 c
  ∧ Spec.flag a
      (PlayerController.inputState
         (PlayerController.onKeyUp e2
            (PlayerController.onKeyDown e2 (PlayerController.onKeyDown e1 c)))) = false.
Proof.
  intros H1 H2. rewrite !onKeyUp_binding, !onKeyDown_binding, H1, H2.
  repeat split. destruct c as [ms acm i kd ku].
  cbn [PlayerController.set_inputState PlayerController.inputState].
  apply flag_set_flag_same.
Qed.

Lemma keys_of_one_action_share_one_flag_witness :
  PlayerInputState.forward
    (PlayerController.inputState
       (PlayerController.onKeyUp {| code := "ArrowUp" |}
          (PlayerController.onKeyDown {| code := "ArrowUp" |}
             (PlayerController.onKeyDown {| code := "KeyW" |} Examples.idle)))) = false.
Proof.
  apply (keys_of_one_action_share_one_flag
           {| code := "KeyW" |} {| code := "ArrowUp" |} Spec.Forward Examples.idle);
    reflexivity.
Defined.

(** ** Manual setters among themselves and with the keyboard *)

Lemma manual_flag m c a :
  Spec.flag a (PlayerController.inputState (manual m c)) =
  Spec.flag a (PlayerController.inputState c) || bool_decide (manual_action m = a).
Proof.
  rewrite manual_sets. destruct c as [ms acm i kd ku].
  cbn [PlayerController.set_inputState PlayerController.inputState].
  case_bool_decide as Ha.
  - subst a. rewrite flag_set_flag_same. by rewrite orb_true_r.
  - rewrite flag_set_flag_other by done. by rewrite orb_false_r.
Qed.

(** After a sequence of manual calls a flag is held exactly when it was
    held before or one of the calls was its setter. *)
Lemma manual_calls_flag ms : ∀ c a,
  Spec.flag a (PlayerController.inputState (manual_calls ms c)) =
  Spec.flag a (PlayerController.inputState c)
  || existsb (λ m, bool_decide (manual_action m = a)) ms.
Proof.
  induction ms as [|m ms IH]; intros c a.
  - cbn. by rewrite orb_false_r.
  - rewrite manual_calls_cons, IH, manual_flag. cbn [existsb].
    by rewrite orb_assoc.
Qed.

Lemma existsb_manual_elem a ms :
  existsb (λ m, bool_decide (manual_action m = a)) ms = true ↔
  ∃ m, m ∈ ms ∧ manual_action m = a.
Proof.
  rewrite existsb_exists. split.
  - intros (m & Hin & Hm). exists m. split; [by apply list_elem_of_In|].
    by apply bool_decide_eq_true in Hm.
  - intros (m & Hin & Hm). exists m. split; [by apply list_elem_of_In|].
    by apply bool_decide_eq_true.
Qed.

(** X5. A manual setter does what the key-down handler does for a key
    bound to the same action, and the key-up event of such a key is what
    clears a flag set by hand. *)
Theorem manual_setter_is_a_key_down
    (m : ManualCall) (e : KeyboardEvent) (c : PlayerController.t) :
  Spec.binding (code e) = Some (manual_action m) →
  manual m c = PlayerController.onKeyDown e c
  ∧ PlayerController.onKeyDown e (manual m c) = manual m c
  ∧ Spec.flag (manual_action m)
      (PlayerController.inputState (PlayerController.onKeyUp e (manual m c))) = false.
Proof.
  intros Hb. rewrite onKeyUp_binding, !onKeyDown_binding, Hb, manual_sets.
  destruct c as [ms acm i kd ku]. unfold PlayerController.set_inputState.
  cbn [PlayerController.inputState PlayerController.moveSpeed
       PlayerController.airControlModifier PlayerController.onKeyDownHandler
       PlayerController.onKeyUpHandler].
  rewrite set_flag_twice. repeat split. apply flag_set_flag_same.
Qed.

Lemma manual_setter_is_a_key_down_witness :
  PlayerController.moveLeft Examples.forward_only =
  PlayerController.onKeyDown {| code := "ArrowLeft" |} Examples.forward_only.
Proof.
  apply (manual_setter_is_a_key_down MoveLeft {| code := "ArrowLeft" |}
           Examples.forward_only).
  reflexivity.
Defined.

(** X6. What a sequence of manual calls leaves behind depends only on
    which setters occur in it, not on their order or number: two
    sequences with the same setters give the same controller object. *)
Theorem manual_calls_depend_only_on_the_setters_called
    (ms ms' : list ManualCall) (c : PlayerController.t) :
  (∀ m, m ∈ ms ↔ m ∈ ms') →
  manual_calls ms c = manual_calls ms' c.
Proof.
  intros Hsame.
  destruct (manual_calls_fields ms c) as (Hms & Hacm & Hkd & Hku).
  destruct (manual_calls_fields ms' c) as (Hms' & Hacm' & Hkd' & Hku').
  apply controller_ext; try congruence.
  apply flags_ext. intros a. rewrite !manual_calls_flag. f_equal.
  apply eq_true_iff_eq. rewrite !existsb_manual_elem.
  split; intros (m & Hin & Hm); exists m; (split; [by apply Hsame|done]).
Qed.

Lemma manual_calls_depend_only_on_the_setters_called_witness :
  manual_calls [MoveLeft; MoveForward; MoveLeft] Examples.idle =
  manual_calls [MoveForward; MoveLeft] Examples.idle.
Proof.
  apply (manual_calls_depend_only_on_the_setters_called
           [MoveLeft; MoveForward; MoveLeft] [MoveForward; MoveLeft] Examples.idle).
  intros m. rewrite !elem_of_cons, !elem_of_nil. tauto.
Defined.

(** ** Frames: order of calls, idle frames, runs of frames *)

Section MoreFrames.

Context {P H : Type} `{!Player.ops P H}.

Implicit Types (s : PlayerController.State (P := P)) (c : PlayerController.t) (p : P).

Lemma run_frames_cons dt dts s :
  PlayerController.run_frames (dt :: dts) s =
  PlayerController.bind (PlayerController.update dt)
    (λ _, PlayerController.run_frames dts) s.
Proof. reflexivity. Qed.

Lemma run_frames_count_move dts : ∀ s,
  count is_move (PlayerController.calls (PlayerController.run_frames dts s)) =
  if PlayerController.has_input
       (PlayerController.accumulate (PlayerController.inputState (PlayerController.self s)))
  then List.length dts else 0%nat.
Proof.
  induction dts as [|dt dts IH]; intros s.
  - cbn. by case_match.
  - rewrite run_frames_cons. unfold PlayerController.bind.
    cbn [PlayerController.calls]. rewrite count_app, IH, update_self, update_count_move.
    by case_match.
Qed.

Lemma move_dts_app (a b : list Call) : move_dts (a ++ b) = move_dts a ++ move_dts b.
Proof. apply omap_app. Qed.

Lemma move_dts_handleActions s :
  move_dts (PlayerController.calls (PlayerController.handleActions s)) = [].
Proof.
  rewrite handleActions_calls. cbv zeta. rewrite move_dts_app.
  destruct (PlayerInputState.jump _), (PlayerInputState.shoot _);
    rewrite ?jump_calls, ?shoot_calls; repeat case_match; reflexivity.
Qed.

Lemma move_dts_update s dt :
  move_dts (PlayerController.calls (PlayerController.update dt s)) =
  if PlayerController.has_input
       (PlayerController.accumulate (PlayerController.inputState (PlayerController.self s)))
  then [dt] else [].
Proof.
  rewrite update_calls, move_dts_app, move_dts_handleActions, handleMovement_calls.
  by case_match.
Qed.

End MoreFrames.

(** X7. In one frame the move is commanded first, then the jump, then
    the shot; [canJump()] is asked of the pawn as the move left it and
    [canShoot()] of the pawn as the jump left it; a command is always
    preceded by its query, and the pawn ends as the commands issued left
    it, with the controller object unchanged. *)
Theorem frame_calls_in_order
    {P H : Type} `{!Player.ops P H} (c : PlayerController.t) (p : P) (dt : number) :
  let i := PlayerController.inputState c in
  let d := PlayerController.accumulate i in
  let speed := if Player.isOnGround p then PlayerController.moveSpeed c
               else PlayerController.moveSpeed c * PlayerController.airControlModifier c in
  let p1 := if PlayerController.has_input d
            then Player.move (Vector3D.normalize d) speed dt p else p in
  let p2 := if PlayerInputState.jump i && Player.canJump p1 then Player.jump p1 else p1 in
  let p3 := if PlayerInputState.shoot i && Player.canShoot p2
            then (Player.shoot p2).2 else p2 in
  let frame := PlayerController.update dt
                 {| PlayerController.self := c; PlayerController.pawn := p |} in
  PlayerController.calls frame =
    (if PlayerController.has_input d
     then [VecNormalize d; PawnIsOnGround; PawnMove (Vector3D.normalize d) speed dt]
     else [])
    ++ (if PlayerInputState.jump i
        then PawnCanJump :: (if Player.canJump p1 then [PawnJump] else [])
        else [])
    ++ (if PlayerInputState.shoot i
        then PawnCanShoot :: (if Player.canShoot p2 then [PawnShoot] else [])
        else [])
  ∧ PlayerController.final frame =
      {| PlayerController.self := c; PlayerController.pawn := p3 |}.
Proof.
  intros i d speed p1 p2 p3 frame.
  unfold frame, PlayerController.update, PlayerController.bind.
  destruct (PlayerController.has_input d) eqn:Hin.
  - rewrite handleMovement_moving by exact Hin.
    cbn [PlayerController.calls PlayerController.final PlayerController.value
         PlayerController.self PlayerController.pawn].
    fold i d speed. fold p1. clearbody p1. clear Hin.
    unfold p3, p2. unfold i. destruct c as [ms acm [f b l r j sh] kd ku].
    run_methods. cbn [PlayerController.inputState PlayerInputState.jump
                      PlayerInputState.shoot].
    destruct j, sh; cbn; repeat (case_match; cbn); try done.
  - rewrite handleMovement_idle by exact Hin.
    cbn [PlayerController.calls PlayerController.final PlayerController.value
         PlayerController.self PlayerController.pawn].
    unfold p3, p2, p1. unfold i. destruct c as [ms acm [f b l r j sh] kd ku].
    run_methods. cbn [PlayerController.inputState PlayerInputState.jump
                      PlayerInputState.shoot].
    destruct j, sh; cbn; repeat (case_match; cbn); try done.
Qed.

(** X8. A frame makes no call at all, on the pawn or on the vector,
    exactly when there is no net movement input and neither the jump nor
    the shoot flag is held; such a frame leaves the pawn as it was. *)
Theorem frame_is_silent_exactly_when_nothing_is_held
    {P H : Type} `{!Player.ops P H} (c : PlayerController.t) (p : P) (dt : number) :
  let i := PlayerController.inputState c in
  let s := {| PlayerController.self := c; PlayerController.pawn := p |} in
  (PlayerController.calls (PlayerController.update dt s) = [] ↔
   PlayerController.has_input (PlayerController.accumulate i) = false
   ∧ PlayerInputState.jump i = false
   ∧ PlayerInputState.shoot i = false)
  ∧ (PlayerController.calls (PlayerController.update dt s) = [] →
     PlayerController.final (PlayerController.update dt s) = s).
Proof.
  intros i s.
  assert (PlayerController.calls (PlayerController.update dt s) = [] ↔
          PlayerController.has_input (PlayerController.accumulate i) = false
          ∧ PlayerInputState.jump i = false ∧ PlayerInputState.shoot i = false) as Hiff.
  { subst i s. destruct c as [ms acm [f b l r j sh] kd ku].
    rewrite update_calls, handleMovement_calls, handleActions_calls. cbv zeta.
    rewrite handleMovement_self.
    cbn [PlayerController.self PlayerController.inputState
         PlayerInputState.jump PlayerInputState.shoot].
    destruct (PlayerController.has_input _), j, sh;
      rewrite ?jump_calls, ?shoot_calls; cbn [app];
      (split; [intros Hnil | intros (? & ? & ?)]); done. }
  split; [exact Hiff|].
  intros Hsilent. apply Hiff in Hsilent as (Hin & Hj & Hs).
  unfold PlayerController.update, PlayerController.bind.
  rewrite handleMovement_idle by exact Hin.
  cbn [PlayerController.final PlayerController.value].
  unfold s, i in *. destruct c as [ms acm [f b l r j sh] kd ku].
  cbn in Hj, Hs. subst j sh. reflexivity.
Qed.

Lemma frame_is_silent_exactly_when_nothing_is_held_witness :
  let s := {| PlayerController.self := Examples.holding true true false false false false;
              PlayerController.pawn := ExamplePawn.airborne |} in
  PlayerController.calls (PlayerController.update 0.016 s) = []
  ∧ PlayerController.final (PlayerController.update 0.016 s) = s.
Proof.
  intros s.
  pose proof (frame_is_silent_exactly_when_nothing_is_held
                (Examples.holding true true false false false false)
                ExamplePawn.airborne 0.016) as [Hiff Hsame].
  assert (PlayerController.calls (PlayerController.update 0.016 s) = []) as Hsilent.
  { apply Hiff. split; [|done]. apply has_input_false. split; simpl; lra. }
  split; [exact Hsilent | exact (Hsame Hsilent)].
Defined.

(** X9. Over a run of frames with movement input held, every frame
    commands one move and the elapsed times reach the pawn once each, in
    order; without net movement input no frame commands a move. *)
Theorem frames_pass_every_dt_once
    {P H : Type} `{!Player.ops P H} (c : PlayerController.t) (p : P) (dts : list number) :
  let s := {| PlayerController.self := c; PlayerController.pawn := p |} in
  move_dts (PlayerController.calls (PlayerController.run_frames dts s)) =
    (if PlayerController.has_input (PlayerController.accumulate (PlayerController.inputState c))
     then dts else [])
  ∧ count is_move (PlayerController.calls (PlayerController.run_frames dts s)) =
    (if PlayerController.has_input (PlayerController.accumulate (PlayerController.inputState c))
     then List.length dts else 0%nat).
Proof.
  intros s. split; [|apply run_frames_count_move].
  unfold s. generalize p. induction dts as [|dt dts IH]; intros p0.
  - cbn. by case_match.
  - rewrite run_frames_cons. unfold PlayerController.bind.
    cbn [PlayerController.calls]. rewrite move_dts_app, move_dts_update.
    cbn [PlayerController.self].
    pose proof (update_self {| PlayerController.self := c; PlayerController.pawn := p0 |} dt)
      as Hself.
    destruct (PlayerController.final (PlayerController.update dt _)) as [c1 p1].
    cbn in Hself. subst c1. rewrite IH. by case_match.
Qed.

(** ** Latched opposite directions *)

Lemma manual_calls_app ms ms' c :
  manual_calls (ms ++ ms') c = manual_calls ms' (manual_calls ms c).
Proof. apply foldl_app. Qed.

Lemma manual_calls_sets m ms c :
  m ∈ ms →
  Spec.flag (manual_action m) (PlayerController.inputState (manual_calls ms c)) = true.
Proof.
  intros Hin. rewrite manual_calls_flag. apply orb_true_iff. right.
  apply existsb_manual_elem. by exists m.
Qed.

(** X10. Once [moveForward()] and [moveBackward()] have both been
    called, the forward axis of the direction is zero whatever manual
    calls follow; once all four setters have been called, no later frame
    commands a move, however many frames run. *)
Theorem opposite_manual_calls_cancel_for_good
    {P H : Type} `{!Player.ops P H}
    (ms ms' : list ManualCall) (c : PlayerController.t) (p : P) (dts : list number) :
  MoveForward ∈ ms → MoveBackward ∈ ms →
  let c' := manual_calls (ms ++ ms') c in
  Vector3D.z (PlayerController.accumulate (PlayerController.inputState c')) = 0
  ∧ (MoveLeft ∈ ms → MoveRight ∈ ms →
     count is_move
       (PlayerController.calls
          (PlayerController.run_frames dts
             {| PlayerController.self := c'; PlayerController.pawn := p |})) = 0%nat).
Proof.
  intros Hf Hb c'.
  assert (∀ m, m ∈ ms →
            Spec.flag (manual_action m) (PlayerController.inputState c') = true) as Hheld.
  { intros m Hm. unfold c'. rewrite manual_calls_app.
    by apply manual_calls_keep_flags, manual_calls_sets. }
  pose proof (Hheld _ Hf) as Hfwd. pose proof (Hheld _ Hb) as Hbwd.
  cbn [manual_action Spec.flag] in Hfwd, Hbwd.
  split.
  - rewrite accumulate_z. apply contribution_zero. congruence.
  - intros Hl Hr. pose proof (Hheld _ Hl) as Hleft. pose proof (Hheld _ Hr) as Hright.
    cbn [manual_action Spec.flag] in Hleft, Hright.
    rewrite run_frames_count_move. cbn [PlayerController.self].
    rewrite has_input_accumulate, Hfwd, Hbwd, Hleft, Hright. reflexivity.
Qed.

Lemma opposite_manual_calls_cancel_for_good_witness :
  count is_move
    (PlayerController.calls
       (PlayerController.run_frames [0.016; 0.016; 0.02]
          {| PlayerController.self :=
               manual_calls ([MoveForward; MoveLeft; MoveBackward; MoveRight] ++ [MoveForward])
                 Examples.idle;
             PlayerController.pawn := ExamplePawn.standing |})) = 0%nat.
Proof.
  apply (opposite_manual_calls_cancel_for_good
           [MoveForward; MoveLeft; MoveBackward; MoveRight] [MoveForward]
           Examples.idle ExamplePawn.standing [0.016; 0.016; 0.02]);
    rewrite !elem_of_cons; tauto.
Defined.

(** ** The directions a frame can command *)

(** [ring] on an equation between numbers. *)
Ltac real_ring := change (@eq number) with (@eq R); ring.

Lemma length_opposite v : Vector3D.length (opposite v) = Vector3D.length v.
Proof.
  unfold Vector3D.length, opposite. cbn [Vector3D.x Vector3D.y Vector3D.z].
  f_equal. ring.
Qed.

Lemma normalize_opposite v :
  Vector3D.normalize (opposite v) = opposite (Vector3D.normalize v).
Proof.
  unfold Vector3D.normalize. rewrite length_opposite.
  unfold opposite. cbn [Vector3D.x Vector3D.y Vector3D.z].
  f_equal; unfold Rdiv; real_ring.
Qed.

Lemma accumulate_components i :
  PlayerController.accumulate i =
  Vector3D.new
    (Spec.contribution (PlayerInputState.right i) (PlayerInputState.left i))
    0
    (Spec.contribution (PlayerInputState.forward i) (PlayerInputState.backward i)).
Proof.
  apply vector_eq; cbn [Vector3D.x Vector3D.y Vector3D.z];
    [apply accumulate_x | apply accumulate_y | apply accumulate_z].
Qed.

Lemma contribution_swap a b : Spec.contribution b a = - Spec.contribution a b.
Proof. unfold Spec.contribution. destruct a, b; lra. Qed.

Lemma contribution_square a b :
  a ≠ b → Spec.contribution a b * Spec.contribution a b = 1.
Proof. unfold Spec.contribution. destruct a, b; intros; try done; lra. Qed.

(** X11. Exchanging forward with backward and left with right turns
    the direction of a frame into its opposite, before and after
    normalization, and does not change whether there is movement
    input. *)
Theorem mirrored_input_gives_the_opposite_direction (i : PlayerInputState.t) :
  PlayerController.accumulate (mirror i) = opposite (PlayerController.accumulate i)
  ∧ PlayerController.has_input (PlayerController.accumulate (mirror i)) =
      PlayerController.has_input (PlayerController.accumulate i)
  ∧ PlayerController.movementIntent (mirror i) =
      opposite (PlayerController.movementIntent i).
Proof.
  assert (PlayerController.accumulate (mirror i) = opposite (PlayerController.accumulate i))
    as Hacc.
  { rewrite !accumulate_components. unfold opposite, mirror.
    cbn [Vector3D.x Vector3D.y Vector3D.z PlayerInputState.forward
         PlayerInputState.backward PlayerInputState.left PlayerInputState.right].
    apply vector_eq; cbn [Vector3D.x Vector3D.y Vector3D.z];
      [apply contribution_swap | lra | apply contribution_swap]. }
  assert (PlayerController.has_input (PlayerController.accumulate (mirror i)) =
          PlayerController.has_input (PlayerController.accumulate i)) as Hin.
  { rewrite !has_input_accumulate. destruct i as [f b l r j s]. cbn.
    by destruct f, b, l, r. }
  split; [exact Hacc|]. split; [exact Hin|].
  unfold PlayerController.movementIntent. rewrite Hin, Hacc.
  destruct (PlayerController.has_input (PlayerController.accumulate i));
    [apply normalize_opposite | reflexivity].
Qed.

(** X12. The direction a frame ends with is one of nine: zero when
    neither axis has net input, the unit vector of the axis when one axis
    has, and, when both have, the vector whose two components are the
    axis signs divided by the square root of 2; its vertical component
    is always zero. *)
Theorem movement_direction_is_one_of_nine (i : PlayerInputState.t) :
  let cx := Spec.contribution (PlayerInputState.right i) (PlayerInputState.left i) in
  let cz := Spec.contribution (PlayerInputState.forward i) (PlayerInputState.backward i) in
  let lateral := negb (eqb (PlayerInputState.right i) (PlayerInputState.left i)) in
  let forward := negb (eqb (PlayerInputState.forward i) (PlayerInputState.backward i)) in
  PlayerController.movementIntent i =
    (if lateral && forward then Vector3D.new (cx / sqrt 2) 0 (cz / sqrt 2)
     else Vector3D.new cx 0 cz)
  ∧ Vector3D.y (PlayerController.movementIntent i) = 0
  ∧ (lateral = false → cx = 0)
  ∧ (forward = false → cz = 0)
  ∧ (lateral = true → cx = 1 ∨ cx = - 1)
  ∧ (forward = true → cz = 1 ∨ cz = - 1).
Proof.
  intros cx cz lateral forward.
  assert (lateral = false → cx = 0) as Hx0.
  { unfold lateral, cx. rewrite negb_false_iff, eqb_true_iff. apply contribution_zero. }
  assert (forward = false → cz = 0) as Hz0.
  { unfold forward, cz. rewrite negb_false_iff, eqb_true_iff. apply contribution_zero. }
  assert (lateral = true → cx * cx = 1) as Hx1.
  { unfold lateral, cx. rewrite negb_true_iff, eqb_false_iff. apply contribution_square. }
  assert (forward = true → cz * cz = 1) as Hz1.
  { unfold forward, cz. rewrite negb_true_iff, eqb_false_iff. apply contribution_square. }
  assert (PlayerController.movementIntent i =
          if lateral && forward then Vector3D.new (cx / sqrt 2) 0 (cz / sqrt 2)
          else Vector3D.new cx 0 cz) as Hintent.
  { unfold PlayerController.movementIntent.
    rewrite has_input_accumulate, accumulate_components. fold cx cz lateral forward.
    unfold Vector3D.normalize, Vector3D.length.
    cbn [Vector3D.x Vector3D.y Vector3D.z].
    destruct lateral, forward; cbn [orb andb].
    - replace (cx * cx + 0 * 0 + cz * cz) with 2
        by (rewrite Hx1, Hz1 by done; lra).
      apply vector_eq; cbn [Vector3D.x Vector3D.y Vector3D.z]; unfold Rdiv; real_ring.
    - replace (cx * cx + 0 * 0 + cz * cz) with 1
        by (rewrite Hx1, Hz0 by done; lra).
      rewrite sqrt_1, Hz0 by done.
      apply vector_eq; cbn [Vector3D.x Vector3D.y Vector3D.z]; lra.
    - replace (cx * cx + 0 * 0 + cz * cz) with 1
        by (rewrite Hx0, Hz1 by done; lra).
      rewrite sqrt_1, Hx0 by done.
      apply vector_eq; cbn [Vector3D.x Vector3D.y Vector3D.z]; lra.
    - reflexivity. }
  split; [exact Hintent|].
  split; [rewrite Hintent; by case_match|].
  split; [exact Hx0|]. split; [exact Hz0|].
  split.
  - intros Hl. unfold lateral, cx in *. unfold Spec.contribution.
    destruct (PlayerInputState.right i), (PlayerInputState.left i); try done;
      [left | right]; lra.
  - intros Hf. unfold forward, cz in *. unfold Spec.contribution.
    destruct (PlayerInputState.forward i), (PlayerInputState.backward i); try done;
      [left | right]; lra.
Qed.

Lemma movement_direction_is_one_of_nine_witness :
  PlayerController.movementIntent (PlayerInputState.Build true false true false false false) =
  Vector3D.new (- 1 / sqrt 2) 0 (1 / sqrt 2).
Proof.
  pose proof (movement_direction_is_one_of_nine
                (PlayerInputState.Build true false true false false false))
    as (Hintent & _).
  rewrite Hintent. cbn. unfold Spec.contribution.
  apply vector_eq; cbn [Vector3D.x Vector3D.y Vector3D.z]; unfold Rdiv; real_ring.
Defined.

(** ** Construction and teardown on the window *)

Lemma removeEventListener_absent type callback (w : Window.t) :
  Build_Listener type callback ∉ w → Window.removeEventListener type callback w = w.
Proof.
  induction w as [|l w IH]; [done|].
  rewrite not_elem_of_cons. intros [Hne Hnotin]. cbn [Window.removeEventListener].
  rewrite decide_False by done. by rewrite IH.
Qed.

Lemma removeEventListener_app type callback (w w' : Window.t) :
  Build_Listener type callback ∉ w →
  Window.removeEventListener type callback (w ++ w') =
  w ++ Window.removeEventListener type callback w'.
Proof.
  induction w as [|l w IH]; [done|].
  rewrite not_elem_of_cons. intros [Hne Hnotin].
  cbn [app Window.removeEventListener].
  rewrite decide_False by done. by rewrite IH.
Qed.

Lemma addEventListener_absent type callback (w : Window.t) :
  Build_Listener type callback ∉ w →
  Window.addEventListener type callback w = w ++ [Build_Listener type callback].
Proof. intros Hnotin. unfold Window.addEventListener. by rewrite decide_False. Qed.

(** In a well-formed world no listener is bound to an address that
    holds no controller. *)
Lemma well_formed_no_stray_listener w l :
  well_formed w → l ∈ window w → is_Some (heap w !! fn_this (l_callback l)).
Proof.
  intros [_ Hown] Hin. rewrite Forall_forall in Hown.
  destruct (Hown l Hin) as (c & Hc & _). by exists c.
Qed.

Lemma fresh_address_is_free w : heap w !! fresh (dom (heap w)) = None.
Proof. apply not_elem_of_dom, is_fresh. Qed.

(** X13. [new PlayerController(pawn)] puts the controller at an address
    no live controller has and leaves every other controller as it was;
    the new controller has all six flags false, stores two handlers
    bound to itself, one per method, and is registered on the window for
    both event types; listeners registered before stay registered. *)
Theorem new_controller_is_fresh_idle_and_listening (w : World) :
  let this := (new_PlayerController w).1 in
  let w' := (new_PlayerController w).2 in
  heap w !! this = None
  ∧ (∀ other, other ≠ this → heap w' !! other = heap w !! other)
  ∧ (∀ l, l ∈ window w → l ∈ window w')
  ∧ ∃ c, heap w' !! this = Some c
         ∧ PlayerController.inputState c = PlayerInputState.initial
         ∧ (∀ a, Spec.flag a (PlayerController.inputState c) = false)
         ∧ bound_to this c
         ∧ listener_of keydown c ∈ window w'
         ∧ listener_of keyup c ∈ window w'.
Proof.
  intros this w'. unfold this, w', new_PlayerController. cbn [fst snd heap window].
  split; [apply fresh_address_is_free|].
  split; [intros other Hne; by rewrite lookup_insert_ne|].
  split.
  { intros l Hin. unfold PlayerController.startListening.
    rewrite !addEventListener_elem. tauto. }
  eexists. split; [apply lookup_insert_eq|].
  cbn [PlayerController.inputState]. split; [reflexivity|].
  split; [by intros []|].
  split; [by intros []|].
  unfold PlayerController.startListening, listener_of.
  cbn [stored_handler PlayerController.onKeyDownHandler PlayerController.onKeyUpHandler].
  rewrite !addEventListener_elem. tauto.
Qed.

(** X14. In a well-formed world, constructing a controller appends
    exactly its two listeners, key-down first, to the window, and
    destroying it right away gives back the window as it was before the
    construction. *)
Theorem construct_then_destroy_restores_the_window (w : World) :
  well_formed w →
  let this := (new_PlayerController w).1 in
  let w' := (new_PlayerController w).2 in
  window w' =
    window w ++ [Build_Listener keydown (Bind (next_fn w) this OnKeyDown);
                 Build_Listener keyup (Bind (S (next_fn w)) this OnKeyUp)]
  ∧ window (destroy this w') = window w.
Proof.
  intros Hwf this w'.
  set (L1 := Build_Listener keydown (Bind (next_fn w) this OnKeyDown)).
  set (L2 := Build_Listener keyup (Bind (S (next_fn w)) this OnKeyUp)).
  assert (∀ l, l ∈ window w → fn_this (l_callback l) ≠ this) as Hold.
  { intros l Hin Heq.
    destruct (well_formed_no_stray_listener w l Hwf Hin) as [c Hc].
    rewrite Heq in Hc. unfold this in Hc. cbn [new_PlayerController fst] in Hc.
    by rewrite fresh_address_is_free in Hc. }
  assert (L1 ∉ window w) as H1 by (intros Hin; by apply (Hold L1 Hin)).
  assert (L2 ∉ window w) as H2 by (intros Hin; by apply (Hold L2 Hin)).
  assert (window w' = window w ++ [L1; L2]) as Hwin.
  { unfold w', new_PlayerController. cbn [snd window].
    unfold PlayerController.startListening.
    cbn [PlayerController.onKeyDownHandler PlayerController.onKeyUpHandler].
    fold this. fold L1 L2.
    rewrite (addEventListener_absent keydown _ (window w)) by exact H1.
    rewrite addEventListener_absent.
    - by rewrite <- app_assoc.
    - fold L2. rewrite elem_of_app, list_elem_of_singleton. intros [?|?]; done. }
  split; [exact Hwin|].
  unfold destroy.
  assert (heap w' !! this =
          Some (PlayerController.Build 5.0 0.5 PlayerInputState.initial
                  (Bind (next_fn w) this OnKeyDown)
                  (Bind (S (next_fn w)) this OnKeyUp))) as ->
    by apply new_PlayerController_fields.
  cbn [window]. rewrite Hwin.
  unfold PlayerController.destroy, PlayerController.stopListening.
  cbn [PlayerController.onKeyDownHandler PlayerController.onKeyUpHandler].
  rewrite (removeEventListener_app keydown _ (window w)) by exact H1.
  cbn [Window.removeEventListener]. fold L1 L2.
  rewrite decide_True by done.
  rewrite (removeEventListener_app keyup _ (window w)) by exact H2.
  cbn [Window.removeEventListener]. fold L2.
  rewrite decide_True by done. apply app_nil_r.
Qed.

Lemma construct_then_destroy_restores_the_window_witness :
  window (destroy (new_PlayerController Examples.two_controllers).1
            (new_PlayerController Examples.two_controllers).2) =
  window Examples.two_controllers.
Proof.
  apply (construct_then_destroy_restores_the_window Examples.two_controllers).
  apply well_formed_new, well_formed_new, well_formed_empty.
Defined.

(** X15. In a well-formed world a second [destroy()] of the same
    controller changes nothing, and [destroy()] never touches a
    controller object: flags held at teardown stay held. *)
Theorem destroy_twice_is_destroy_once (w : World) (this : loc) :
  well_formed w →
  destroy this (destroy this w) = destroy this w
  ∧ heap (destroy this w) = heap w.
Proof.
  intros [Hnd Hown].
  assert (heap (destroy this w) = heap w) as Hheap.
  { unfold destroy. by destruct (heap w !! this). }
  split; [|exact Hheap].
  unfold destroy at 1. rewrite Hheap.
  destruct (heap w !! this) as [c|] eqn:Hc; [|done].
  unfold destroy. rewrite Hc. cbn [heap window next_fn]. f_equal.
  unfold PlayerController.destroy, PlayerController.stopListening.
  set (w1 := Window.removeEventListener keydown (PlayerController.onKeyDownHandler c)
               (window w)).
  set (w2 := Window.removeEventListener keyup (PlayerController.onKeyUpHandler c) w1).
  assert (NoDup w1) as Hnd1 by by apply removeEventListener_NoDup.
  assert (Build_Listener keydown (PlayerController.onKeyDownHandler c) ∉ w2) as Hkd.
  { intros Hin. apply removeEventListener_elem in Hin.
    by apply removeEventListener_gone in Hin. }
  assert (Build_Listener keyup (PlayerController.onKeyUpHandler c) ∉ w2) as Hku
    by by apply removeEventListener_gone.
  rewrite (removeEventListener_absent keydown _ w2) by exact Hkd.
  by rewrite (removeEventListener_absent keyup _ w2) by exact Hku.
Qed.

Lemma destroy_twice_is_destroy_once_witness :
  destroy Examples.first (destroy Examples.first Examples.two_controllers) =
  destroy Examples.first Examples.two_controllers.
Proof.
  apply (destroy_twice_is_destroy_once Examples.two_controllers Examples.first).
  apply well_formed_new, well_formed_new, well_formed_empty.
Defined.

(** ** Invariants of reachable worlds *)

Lemma same_handlers_refl c : same_handlers c c.
Proof. by intros type. Qed.

Lemma same_handlers_trans c1 c2 c3 :
  same_handlers c1 c2 → same_handlers c2 c3 → same_handlers c1 c3.
Proof. intros H12 H23 type. by rewrite H12. Qed.

Lemma handle_same_handlers ev c : same_handlers (handle ev c) c.
Proof.
  destruct (handle_fields ev c) as (_ & _ & Hkd & Hku). by intros [].
Qed.

Lemma bound_to_same_handlers this c c' :
  same_handlers c' c → bound_to this c → bound_to this c'.
Proof. intros Hsame Hb type. rewrite Hsame. apply Hb. Qed.

Lemma call_is_handle f e (h : gmap loc PlayerController.t) c type :
  h !! fn_this f = Some c → fn_method f = method_of type →
  call f e h = <[fn_this f := handle (type, e) c]> h.
Proof.
  intros Hc Hm. unfold call. rewrite Hc, Hm. by destruct type.
Qed.

(** An object found after a call was there before, with the same
    function objects. *)
Lemma call_backward f e (h : gmap loc PlayerController.t) this c' :
  call f e h !! this = Some c' →
  ∃ c, h !! this = Some c ∧ same_handlers c' c.
Proof.
  unfold call. destruct (h !! fn_this f) as [c0|] eqn:Hf.
  - destruct (decide (fn_this f = this)) as [Heq|Hne].
    + rewrite Heq in *. rewrite lookup_insert_eq. intros [= <-].
      exists c0. split; [done|].
      destruct (fn_method f); intros [];
        [apply onKeyDown_handlers | apply onKeyDown_handlers
        |apply onKeyUp_handlers | apply onKeyUp_handlers].
    + rewrite lookup_insert_ne by done. intros Hc. exists c'.
      split; [done | apply same_handlers_refl].
  - intros Hc. exists c'. split; [done | apply same_handlers_refl].
Qed.

Lemma deliver_backward type e (ls : list Listener) : ∀ (h : gmap loc PlayerController.t) this c',
  foldl (λ h l, if decide (l_type l = type) then call (l_callback l) e h else h) h ls
    !! this = Some c' →
  ∃ c, h !! this = Some c ∧ same_handlers c' c.
Proof.
  induction ls as [|l ls IH]; intros h this c' Hc'.
  - exists c'. split; [done | apply same_handlers_refl].
  - cbn [foldl] in Hc'. destruct (IH _ _ _ Hc') as (c1 & Hc1 & Hsame1).
    case_decide.
    + destruct (call_backward _ _ _ _ _ Hc1) as (c & Hc & Hsame).
      exists c. split; [done|]. by eapply same_handlers_trans.
    + by exists c1.
Qed.

Lemma handlers_bound_step w w' : step w w' → handlers_bound w → handlers_bound w'.
Proof.
  destruct 1 as [w|this w|type e w|this m w]; intros Hb o c Hc.
  - unfold new_PlayerController in Hc. cbn [snd heap] in Hc.
    destruct (decide (fresh (dom (heap w)) = o)) as [<-|Hne].
    + rewrite lookup_insert_eq in Hc. simplify_eq. by intros [].
    + rewrite lookup_insert_ne in Hc by done. by apply Hb.
  - apply Hb. unfold destroy in Hc. by destruct (heap w !! this).
  - cbn [dispatchEvent heap] in Hc.
    destruct (deliver_backward _ _ _ _ _ _ Hc) as (c0 & Hc0 & Hsame).
    eapply bound_to_same_handlers; [exact Hsame | by apply Hb].
  - cbn [heap] in Hc. rewrite lookup_alter in Hc. case_decide as Ho.
    + subst o. destruct (heap w !! this) as [c0|] eqn:Hc0; [|done].
      cbn in Hc. simplify_eq.
      eapply bound_to_same_handlers; [|by apply Hb].
      destruct (manual_handlers m c0) as [Hkd Hku]. by intros [].
    + by apply Hb.
Qed.

Lemma reachable_handlers_bound w : reachable w → handlers_bound w.
Proof.
  unfold reachable. revert w. apply rtc_ind_r.
  - intros o c Hc. cbn in Hc. by rewrite lookup_empty in Hc.
  - intros w w' _ Hstep Hb. by apply (handlers_bound_step w w').
Qed.

(** X16. In every world a program can reach, the window's listeners
    are pairwise distinct, each is a handler stored in a live controller,
    registered for the event type of its method, and every live
    controller's two stored handlers are bound to that controller, each
    to its own method. *)
Theorem reachable_worlds_keep_listeners_and_handlers_consistent (w : World) :
  reachable w →
  NoDup (window w)
  ∧ (∀ l, l ∈ window w →
       ∃ c, heap w !! fn_this (l_callback l) = Some c
            ∧ l = listener_of (l_type l) c
            ∧ fn_method (l_callback l) = method_of (l_type l))
  ∧ (∀ this c, heap w !! this = Some c → bound_to this c).
Proof.
  intros Hreach.
  destruct (reachable_well_formed w Hreach) as [Hnd Hown].
  pose proof (reachable_handlers_bound w Hreach) as Hb.
  split; [exact Hnd|]. split; [|exact Hb].
  intros l Hin. rewrite Forall_forall in Hown.
  destruct (Hown l Hin) as (c & Hc & Hcases). exists c. split; [exact Hc|].
  destruct Hcases as [-> | ->]; cbn [l_type l_callback]; (split; [reflexivity|]).
  - apply (Hb _ c Hc keydown).
  - apply (Hb _ c Hc keyup).
Qed.

Lemma reachable_worlds_keep_listeners_and_handlers_consistent_witness :
  NoDup (window (dispatchAll Examples.keys Examples.two_controllers)).
Proof.
  apply (reachable_worlds_keep_listeners_and_handlers_consistent
           (dispatchAll Examples.keys Examples.two_controllers)).
  unfold reachable, Examples.two_controllers, Examples.keys, dispatchAll. cbn [foldl fst snd].
  repeat (eapply rtc_r; [|constructor]). apply rtc_refl.
Defined.

(** ** Delivery of key events to live controllers *)

(** Delivery over a duplicate-free list in which the listeners bound
    to [this] are among the two of [c]: the handler for the event type
    runs once if it is registered, and not at all otherwise. *)
Lemma deliver_once type e this c (ls : list Listener) :
  bound_to this c →
  NoDup ls →
  (∀ l, l ∈ ls → fn_this (l_callback l) = this →
        l = listener_of keydown c ∨ l = listener_of keyup c) →
  ∀ (h : gmap loc PlayerController.t) c0,
    h !! this = Some c0 → same_handlers c0 c →
    foldl (λ h l, if decide (l_type l = type) then call (l_callback l) e h else h) h ls
      !! this =
    Some (if decide (listener_of type c ∈ ls) then handle (type, e) c0 else c0).
Proof.
  intros Hb. induction ls as [|l ls IH]; intros Hnd Hmine h c0 Hc0 Hsame.
  - cbn [foldl]. rewrite decide_False by apply not_elem_of_nil. exact Hc0.
  - apply NoDup_cons in Hnd as [Hnotin Hnd]. cbn [foldl].
    assert (∀ l', l' ∈ ls → fn_this (l_callback l') = this →
                  l' = listener_of keydown c ∨ l' = listener_of keyup c) as Hmine'.
    { intros l' Hl'. apply Hmine. by right. }
    destruct (decide (l = listener_of type c)) as [Heq|Hne].
    + subst l. cbn [listener_of l_type l_callback].
      rewrite decide_True by done.
      destruct (Hb type) as [Hthis Hmethod].
      rewrite (call_is_handle _ e h c0 type) by (by rewrite ?Hthis).
      rewrite Hthis.
      rewrite (IH Hnd Hmine' _ (handle (type, e) c0)).
      * rewrite decide_False by exact Hnotin.
        rewrite decide_True by (by left). reflexivity.
      * apply lookup_insert_eq.
      * eapply same_handlers_trans; [apply handle_same_handlers | exact Hsame].
    + assert ((if decide (l_type l = type) then call (l_callback l) e h else h) !! this
              = Some c0) as Hstep.
      { destruct (decide (l_type l = type)) as [Htype|Htype]; [|exact Hc0].
        rewrite call_other; [exact Hc0|]. intros Hthis.
        destruct (Hmine l (ltac:(by left)) Hthis) as [-> | ->];
          cbn [listener_of l_type] in Htype; subst type; by apply Hne. }
      rewrite (IH Hnd Hmine' _ c0 Hstep Hsame).
      f_equal. apply decide_ext. rewrite elem_of_cons. split; [tauto|].
      intros [Heq|Hin]; [by symmetry in Heq | exact Hin].
Qed.

Lemma reachable_listeners_of this c w l :
  reachable w → heap w !! this = Some c →
  l ∈ window w → fn_this (l_callback l) = this →
  l = listener_of keydown c ∨ l = listener_of keyup c.
Proof.
  intros Hreach Hc Hin Hthis.
  destruct (reachable_well_formed w Hreach) as [_ Hown].
  rewrite Forall_forall in Hown. destruct (Hown l Hin) as (c' & Hc' & Hcases).
  rewrite Hthis, Hc in Hc'. by simplify_eq.
Qed.

Lemma dispatchEvent_lookup type e w this c :
  reachable w → heap w !! this = Some c →
  heap (dispatchEvent type e w) !! this =
  Some (if decide (listener_of type c ∈ window w) then handle (type, e) c else c).
Proof.
  intros Hreach Hc. cbn [dispatchEvent heap].
  apply deliver_once.
  - by apply (reachable_handlers_bound w Hreach).
  - by destruct (reachable_well_formed w Hreach).
  - intros l. by apply reachable_listeners_of.
  - exact Hc.
  - apply same_handlers_refl.
Qed.

Lemma reachable_dispatchEvent type e w : reachable w → reachable (dispatchEvent type e w).
Proof. intros Hreach. eapply rtc_r; [exact Hreach | constructor]. Qed.

Lemma reachable_destroy this w : reachable w → reachable (destroy this w).
Proof. intros Hreach. eapply rtc_r; [exact Hreach | constructor]. Qed.

Lemma reachable_new w : reachable w → reachable (new_PlayerController w).2.
Proof. intros Hreach. eapply rtc_r; [exact Hreach | constructor]. Qed.

Lemma listener_of_same_handlers type c c' :
  same_handlers c' c → listener_of type c' = listener_of type c.
Proof. intros Hsame. unfold listener_of. by rewrite Hsame. Qed.



(** X18. In a reachable world, a controller that has both its
    listeners on the window ends a history of key events as its own
    handlers, run in the order of the events, leave it. *)
Theorem listening_controller_follows_the_key_history
    (es : list (EventType * KeyboardEvent)) (w : World)
    (this : loc) (c : PlayerController.t) :
  reachable w →
  heap w !! this = Some c →
  listener_of keydown c ∈ window w →
  listener_of keyup c ∈ window w →
  heap (dispatchAll es w) !! this = Some (handle_all es c).
Proof.
  revert w c.
  induction es as [|[type e] es IH]; intros w c Hreach Hc Hkd Hku; [exact Hc|].
  unfold dispatchAll in *. cbn [foldl fst snd]. rewrite handle_all_cons.
  apply IH.
  - by apply reachable_dispatchEvent.
  - rewrite (dispatchEvent_lookup type e w this c Hreach Hc).
    rewrite decide_True; [done | by destruct type].
  - rewrite dispatchEvent_window.
    by rewrite (listener_of_same_handlers keydown c _ (handle_same_handlers _ c)).
  - rewrite dispatchEvent_window.
    by rewrite (listener_of_same_handlers keyup c _ (handle_same_handlers _ c)).
Qed.

Lemma listening_controller_follows_the_key_history_witness :
  heap (dispatchAll Examples.keys Examples.two_controllers) !! Examples.first =
  Some (handle_all Examples.keys
          (PlayerController.Build 5.0 0.5 PlayerInputState.initial
             (Bind 0 Examples.first OnKeyDown) (Bind 1 Examples.first OnKeyUp))).
Proof.
  apply (listening_controller_follows_the_key_history
           Examples.keys Examples.two_controllers Examples.first
           (PlayerController.Build 5.0 0.5 PlayerInputState.initial
              (Bind 0 Examples.first OnKeyDown) (Bind 1 Examples.first OnKeyUp))
           (reachable_new _ (reachable_new _ (rtc_refl _ _)))
           eq_refl);
    apply (bool_decide_unpack _); vm_compute; exact I.
Defined.

(** X19. In a reachable world, destroying one controller leaves the
    listeners of every other live controller on the window, and a key
    event delivered afterwards does to the other controller exactly
    what it would have done without the teardown. *)
Theorem destroy_leaves_other_controllers_listening
    (type : EventType) (e : KeyboardEvent) (w : World)
    (this other : loc) (c' : PlayerController.t) :
  reachable w →
  this ≠ other →
  heap w !! other = Some c' →
  (listener_of type c' ∈ window (destroy this w) ↔ listener_of type c' ∈ window w)
  ∧ heap (dispatchEvent type e (destroy this w)) !! other =
    heap (dispatchEvent type e w) !! other.
Proof.
  intros Hreach Hne Hother.
  assert (listener_of type c' ∈ window (destroy this w) ↔ listener_of type c' ∈ window w)
    as Hiff.
  { unfold destroy. destruct (heap w !! this) as [c|] eqn:Hc; [|done].
    cbn [window]. unfold PlayerController.destroy, PlayerController.stopListening.
    pose proof (reachable_handlers_bound w Hreach) as Hb.
    assert (∀ type0, listener_of type c' ≠ listener_of type0 c) as Hdiff.
    { intros type0 Heq. apply Hne.
      destruct (Hb _ _ Hc type0) as [Hthis _]. destruct (Hb _ _ Hother type) as [Hoth _].
      unfold listener_of in Heq. injection Heq as _ Hcb.
      by rewrite <- Hthis, <- Hoth, Hcb. }
    split.
    - intros Hin. by do 2 apply removeEventListener_elem in Hin.
    - intros Hin. apply removeEventListener_other; [apply (Hdiff keyup)|].
      apply removeEventListener_other; [apply (Hdiff keydown) | exact Hin]. }
  split; [exact Hiff|].
  assert (heap (destroy this w) !! other = Some c') as Hother'.
  { unfold destroy. by destruct (heap w !! this). }
  rewrite (dispatchEvent_lookup type e (destroy this w) other c'
             (reachable_destroy this w Hreach) Hother').
  rewrite (dispatchEvent_lookup type e w other c' Hreach Hother).
  f_equal. by apply decide_ext.
Qed.

Lemma destroy_leaves_other_controllers_listening_witness :
  heap (dispatchEvent keydown {| code := "Space" |}
          (destroy Examples.first Examples.two_controllers)) !! Examples.second =
  heap (dispatchEvent keydown {| code := "Space" |} Examples.two_controllers)
    !! Examples.second.
Proof.
  apply (destroy_leaves_other_controllers_listening
           keydown {| code := "Space" |} Examples.two_controllers
           Examples.first Examples.second
           (PlayerController.Build 5.0 0.5 PlayerInputState.initial
              (Bind 2 Examples.second OnKeyDown) (Bind 3 Examples.second OnKeyUp))
           (reachable_new _ (reachable_new _ (rtc_refl _ _)))).
  - vm_compute. discriminate.
  - reflexivity.
Defined.
